(** * gym.vector: the [make] entry point and the batched execution contract

    The first part embeds [gym/vector/__init__.py]: the function [make], its
    inner closure [_make_env] and the list of factories handed to the chosen
    executor.  The second part models the two executors (sequential and
    parallel) that [make] dispatches to. *)

From Stdlib Require Import String ZArith Bool Lia List.
Import ListNotations.
Local Open Scope Z_scope.

(** ** Exceptions and fallible results *)

(** The exceptions that can cross the functions modelled here.
    [ExternalError] stands for whatever the registry, a wrapper or an
    environment instance raises on its own. *)
Inductive exn : Type :=
| NotImplementedError
| TypeError
| ExternalError (msg : string)
| ClosedError
| ConcurrentCallError
| InvalidBatchSizeError
| WorkerError (slot : nat) (desc : exn).

Inductive result (A : Type) : Type :=
| Ok (a : A)
| Raise (e : exn).
Arguments Ok {A} a.
Arguments Raise {A} e.

Definition bind {A B : Type} (r : result A) (k : A -> result B) : result B :=
  match r with
  | Ok a => k a
  | Raise e => Raise e
  end.

Notation "x <- c ;; k" := (bind c (fun x => k))
  (at level 61, c at next level, right associativity).

Definition is_ok {A : Type} (r : result A) : bool :=
  match r with Ok _ => true | Raise _ => false end.

(** ** Python values reaching the [wrappers] parameter *)

Section PyValues.

Variable Env : Type.

(** A Python object as [_make_env] inspects it: it is [None], or it has
    an optional call behaviour ([callable(o)] holds iff there is one) and
    an optional iteration behaviour ([isinstance(o, Iterable)] holds iff
    there is one).  An iterable is a re-iterable collection (list, tuple):
    every traversal yields the same items. *)
#[warnings="-register-all"] Inductive pyobj : Type :=
| PyNone
| PyObj (call : option (Env -> result Env)) (iter : option (list pyobj)).

(** [o is None] *)
Definition is_none (o : pyobj) : bool :=
  match o with
  | PyNone => true
  | PyObj _ _ => false
  end.

(** [callable(o)] *)
Definition callable (o : pyobj) : bool :=
  match o with
  | PyObj (Some _) _ => true
  | _ => false
  end.

(** [isinstance(o, Iterable)], with the items when it holds *)
Definition iterable (o : pyobj) : option (list pyobj) :=
  match o with
  | PyObj _ it => it
  | PyNone => None
  end.

(** [isinstance(o, Iterable) and all([callable(w) for w in o])] *)
Definition iterable_of_callables (o : pyobj) : bool :=
  match iterable o with
  | Some items => forallb callable items
  | None => false
  end.

(** [iter(o)]: iterating over an object that is not iterable raises
    [TypeError]. *)
Definition py_iter (o : pyobj) : result (list pyobj) :=
  match iterable o with
  | Some items => Ok items
  | None => Raise TypeError
  end.

(** [o(env)]: calling an object that is not callable raises [TypeError]. *)
Definition py_call (o : pyobj) (env : Env) : result Env :=
  match o with
  | PyObj (Some f) _ => f env
  | _ => Raise TypeError
  end.

(** A plain function object and a plain list object. *)
Definition py_fun (f : Env -> result Env) : pyobj := PyObj (Some f) None.
Definition py_list (items : list pyobj) : pyobj := PyObj None (Some items).

(** [for wrapper in wrappers: env = wrapper(env)] *)
Fixpoint for_wrappers (items : list pyobj) (env : Env) : result Env :=
  match items with
  | [] => Ok env
  | wrapper :: rest => env' <- py_call wrapper env ;; for_wrappers rest env'
  end.

(** A wrapper object whose call, if it has one, never raises. *)
Definition total_wrapper (o : pyobj) : Prop :=
  match o with
  | PyObj (Some f) _ => forall env : Env, is_ok (f env) = true
  | _ => True
  end.

End PyValues.

Arguments PyNone {Env}.
Arguments PyObj {Env} call iter.
Arguments is_none {Env} o.
Arguments callable {Env} o.
Arguments iterable {Env} o.
Arguments iterable_of_callables {Env} o.
Arguments py_iter {Env} o.
Arguments py_call {Env} o env.
Arguments py_fun {Env} f.
Arguments py_list {Env} items.
Arguments for_wrappers {Env} items env.
Arguments total_wrapper {Env} o.

(** [range(n)] for a Python int: empty when [n <= 0]. *)
Definition range (n : Z) : list Z :=
  map Z.of_nat (seq 0 (Z.to_nat n)).

(** ** [make] and [_make_env] *)

Section Make.

(** Environment instances, registry ids and keyword arguments. *)
Variables (Env Id Kwargs : Type).

(** [gym.envs.make], imported as [make_]: the registry's constructor. *)
Variable make_ : Id -> Kwargs -> result Env.

(** An instance factory: a zero-argument callable. *)
Definition factory : Type := unit -> result Env.

(** The closure [_make_env]; [id], [kwargs] and [wrappers] are the
    variables it captures from the enclosing call of [make]. *)
Definition _make_env (id : Id) (kwargs : Kwargs) (wrappers : pyobj Env)
  : factory :=
  fun 'tt =>
    env <- make_ id kwargs ;;
    if negb (is_none wrappers) then
      if callable wrappers then py_call wrappers env
      else if iterable_of_callables wrappers then
        items <- py_iter wrappers ;;
        for_wrappers items env
      else Raise NotImplementedError
    else Ok env.

(** [env_fns = [_make_env for _ in range(num_envs)]] *)
Definition env_fns (id : Id) (num_envs : Z) (wrappers : pyobj Env)
           (kwargs : Kwargs) : list factory :=
  map (fun _ => _make_env id kwargs wrappers) (range num_envs).

(** The two executor classes are imported from sibling modules; [make]
    only applies one of them to [env_fns].  [VE] is whatever evaluating
    that constructor call yields. *)
Variable VE : Type.
Variables AsyncVectorEnv SyncVectorEnv : list factory -> VE.

Definition make (id : Id) (num_envs : Z) (asynchronous : bool)
           (wrappers : pyobj Env) (kwargs : Kwargs) : VE :=
  let env_fns := env_fns id num_envs wrappers kwargs in
  if asynchronous then AsyncVectorEnv env_fns else SyncVectorEnv env_fns.

End Make.

Arguments _make_env {Env Id Kwargs} make_ id kwargs wrappers.
Arguments env_fns {Env Id Kwargs} make_ id num_envs wrappers kwargs.
Arguments make {Env Id Kwargs} make_ {VE} AsyncVectorEnv SyncVectorEnv
  id num_envs asynchronous wrappers kwargs.

(** ** [make] and [_make_env] with the calls they make recorded

    The same two functions once more, now keeping the record of what is
    called and when: a computation yields the calls it made, in order,
    beside its result.  The calls on record are the ones to the registry
    and to a wrapper. *)
Module Traced.

Section Make.

Variables (Env Id Kwargs : Type).
Variable make_ : Id -> Kwargs -> result Env.

Inductive event : Type :=
| Construct (id : Id) (kwargs : Kwargs)
| Wrap (wrapper : pyobj Env) (env : Env).

Definition traced (A : Type) : Type := list event * result A.

Definition ret {A : Type} (a : A) : traced A := ([], Ok a).

Definition raise {A : Type} (e : exn) : traced A := ([], Raise e).

(** Sequencing: the calls of the first part, then those of the second;
    an exception ends the computation with the calls made so far. *)
Definition bind {A B : Type} (c : traced A) (k : A -> traced B) : traced B :=
  match c with
  | (t, Ok a) => let (t', r) := k a in (t ++ t', r)
  | (t, Raise e) => (t, Raise e)
  end.

(** [make_(id, **kwargs)] *)
Definition call_registry (id : Id) (kwargs : Kwargs) : traced Env :=
  ([Construct id kwargs], make_ id kwargs).

(** [o(env)] *)
Definition call (o : pyobj Env) (env : Env) : traced Env :=
  match o with
  | PyObj (Some f) _ => ([Wrap o env], f env)
  | _ => raise TypeError
  end.

(** [iter(o)] *)
Definition iter (o : pyobj Env) : traced (list (pyobj Env)) :=
  ([], py_iter o).

(** [for wrapper in wrappers: env = wrapper(env)] *)
Fixpoint for_wrappers (items : list (pyobj Env)) (env : Env) : traced Env :=
  match items with
  | [] => ret env
  | wrapper :: rest => bind (call wrapper env) (for_wrappers rest)
  end.

Definition factory : Type := unit -> traced Env.

Definition _make_env (id : Id) (kwargs : Kwargs) (wrappers : pyobj Env)
  : factory :=
  fun 'tt =>
    bind (call_registry id kwargs) (fun env =>
      if negb (is_none wrappers) then
        if callable wrappers then call wrappers env
        else if iterable_of_callables wrappers then
          bind (iter wrappers) (fun items => for_wrappers items env)
        else raise NotImplementedError
      else ret env).

(** [env_fns = [_make_env for _ in range(num_envs)]]: naming the closure
    calls nothing. *)
Definition env_fns (id : Id) (num_envs : Z) (wrappers : pyobj Env)
           (kwargs : Kwargs) : list factory :=
  map (fun _ => _make_env id kwargs wrappers) (range num_envs).

Variable VE : Type.
Variables AsyncVectorEnv SyncVectorEnv : list factory -> traced VE.

Definition make (id : Id) (num_envs : Z) (asynchronous : bool)
           (wrappers : pyobj Env) (kwargs : Kwargs) : traced VE :=
  let env_fns := env_fns id num_envs wrappers kwargs in
  if asynchronous then AsyncVectorEnv env_fns else SyncVectorEnv env_fns.

(** The number of registry calls on a record. *)
Definition constructions (t : list event) : nat :=
  length (filter (fun ev => match ev with Construct _ _ => true | _ => false end) t).

End Make.

Arguments Construct {Env Id Kwargs} id kwargs.
Arguments Wrap {Env Id Kwargs} wrapper env.
Arguments ret {Env Id Kwargs A} a.
Arguments raise {Env Id Kwargs A} e.
Arguments bind {Env Id Kwargs A B} c k.
Arguments call {Env Id Kwargs} o env.
Arguments for_wrappers {Env Id Kwargs} items env.
Arguments _make_env {Env Id Kwargs} make_ id kwargs wrappers.
Arguments env_fns {Env Id Kwargs} make_ id num_envs wrappers kwargs.
Arguments make {Env Id Kwargs} make_ {VE} AsyncVectorEnv SyncVectorEnv
  id num_envs asynchronous wrappers kwargs.
Arguments constructions {Env Id Kwargs} t.

End Traced.

(** ** The batched execution contract

    [gym/vector/__init__.py] imports [SyncVectorEnv], [AsyncVectorEnv] and
    the instance contract from sibling modules.  They are modelled below
    from the design document of the package. *)

(** Executor state. *)
Inductive ExecutorState : Type :=
| DEFAULT
| WAITING_RESET
| WAITING_STEP
| CLOSED.

Definition is_default (s : ExecutorState) : bool :=
  match s with DEFAULT => true | _ => false end.

Definition is_closed (s : ExecutorState) : bool :=
  match s with CLOSED => true | _ => false end.

(** The [seed] argument of [reset] and [seed]:
    [None], one int broadcast to every slot, or a sequence of N ints. *)
Inductive SeedArg : Type :=
| SeedNone
| SeedInt (s : Z)
| SeedSeq (l : list Z).

(** Modelled from the spec: the per-slot seeds a seed argument stands for
    in an executor of [n] slots ([seed]/[reset] of the VectorEnv contract,
    absent from the sources); a sequence of the wrong length is an
    [InvalidBatchSizeError]. *)
Definition spread_seed (n : nat) (s : SeedArg) : result (list (option Z)) :=
  match s with
  | SeedNone => Ok (repeat None n)
  | SeedInt z => Ok (repeat (Some z) n)
  | SeedSeq l =>
      if Nat.eqb (length l) n then Ok (map Some l)
      else Raise InvalidBatchSizeError
  end.

(** Modelled from the spec: the instance contract (the environment class,
    absent from the sources), with the types of what crosses it.  An
    instance is a mutable object: every operation returns the instance as
    the call left it, also when the call raised. *)
Class Contract : Type := {
  Env : Type;
  Obs : Type;
  Action : Type;
  Reward : Type;
  Info : Type;
  Options : Type;
  reward_zero : Reward;
  env_reset : Env -> option Z -> option Options -> Env * result (Obs * Info);
  env_step_raw : Env -> Action -> Env * result (Obs * Reward * bool * bool * Info);
  env_close : Env -> Env
}.

Section Executors.

Context {C : Contract}.

(** Transition Record: the per-slot result of a step. *)
Record Transition : Type := mkTransition {
  t_obs : Obs;
  t_reward : Reward;
  t_terminated : bool;
  t_truncated : bool;
  t_info : Info
}.

(** [step(action) -> (observation, reward, terminated, truncated, info)] *)
Definition env_step (i : Env) (a : Action) : Env * result Transition :=
  let (i', r) := env_step_raw i a in
  (i', match r with
       | Ok (o, rw, tm, tr, inf) => Ok (mkTransition o rw tm tr inf)
       | Raise e => Raise e
       end).

(** Batched Transition: slot index = batch position. *)
Record Batch : Type := mkBatch {
  b_obs : list Obs;
  b_rewards : list Reward;
  b_terminated : list bool;
  b_truncated : list bool;
  b_infos : list Info
}.

(** Modelled from the spec: the Result Batcher (absent from the sources),
    stacking per-slot results in slot order.  The per-field merge of the
    info mappings is kept as the slot-indexed sequence of infos. *)
Definition batch_transitions (ts : list Transition) : Batch :=
  {| b_obs := map t_obs ts;
     b_rewards := map t_reward ts;
     b_terminated := map t_terminated ts;
     b_truncated := map t_truncated ts;
     b_infos := map t_info ts |}.

Definition batch_resets (rs : list (Obs * Info)) : list Obs * list Info :=
  (map fst rs, map snd rs).

(** What a batched call hands back to the caller. *)
Inductive Output : Type :=
| OutReset (obs : list Obs) (infos : list Info)
| OutStep (b : Batch)
| OutNone.

(** The caller-facing batched calls. *)
Inductive Call : Type :=
| CallReset (seed : SeedArg) (options : option Options)
| CallStep (actions : list Action)
| CallSeed (seed : SeedArg)
| CallClose.

(** The transition record reported for a slot on its auto-reset step. *)
Definition reset_as_transition (r : Obs * Info) : Transition :=
  {| t_obs := fst r; t_reward := reward_zero;
     t_terminated := false; t_truncated := false; t_info := snd r |}.

Definition episode_over (t : Transition) : bool :=
  t_terminated t || t_truncated t.

(** *** Sequential executor *)

(** One slot of the sequential executor: the instance, whether its
    previous step ended an episode, and the seed assigned by [seed] for
    the next reset. *)
Record Slot : Type := mkSlot {
  inst : Env;
  ended : bool;
  pending : option Z
}.

Record SeqExec : Type := mkSeq {
  seq_state : ExecutorState;
  seq_slots : list Slot
}.

(** Modelled from the spec: resetting one slot (sequential executor,
    absent from the sources).  The instance's [reset] receives the seed
    the call gives for the slot, or else the seed assigned earlier by
    [seed], which is thereby used up. *)
Definition slot_reset (options : option Options) (s : Slot) (seed : option Z)
  : Slot * result (Obs * Info) :=
  let used := match seed with Some _ => seed | None => pending s end in
  let (i, r) := env_reset (inst s) used options in
  ({| inst := i; ended := false; pending := None |}, r).

(** Modelled from the spec: stepping one slot with the auto-reset policy
    (sequential executor, absent from the sources). *)
Definition slot_step (s : Slot) (a : Action) : Slot * result Transition :=
  if ended s then
    let (s', r) := slot_reset None s None in
    (s', match r with
         | Ok oi => Ok (reset_as_transition oi)
         | Raise e => Raise e
         end)
  else
    let (i, r) := env_step (inst s) a in
    ({| inst := i;
        ended := match r with Ok t => episode_over t | Raise _ => false end;
        pending := pending s |}, r).

(** Running a per-slot operation over the slots in slot order; the first
    exception propagates at once and later slots are not touched. *)
Fixpoint seq_each {X R : Type} (op : Slot -> X -> Slot * result R)
         (slots : list Slot) (xs : list X) : list Slot * result (list R) :=
  match slots, xs with
  | s :: slots', x :: xs' =>
      let (s', r) := op s x in
      match r with
      | Raise e => (s' :: slots', Raise e)
      | Ok v =>
          let (rest, rs) := seq_each op slots' xs' in
          (s' :: rest,
           match rs with Ok vs => Ok (v :: vs) | Raise e => Raise e end)
      end
  | _, _ => (slots, Ok [])
  end.

Definition set_pending (s : Slot) (seed : option Z) : Slot :=
  {| inst := inst s; ended := ended s; pending := seed |}.

Definition slot_close (s : Slot) : Slot :=
  {| inst := env_close (inst s); ended := ended s; pending := pending s |}.

(** Modelled from the spec: the sequential executor's constructor
    ([SyncVectorEnv], absent from the sources): every factory is invoked
    once, in slot order, in the caller's own control flow.  Only the
    building of the instances is modelled; deriving the spaces and
    comparing them across the instances is left out. *)
Fixpoint build_instances (fns : list (unit -> result Env)) : result (list Env) :=
  match fns with
  | [] => Ok []
  | f :: rest =>
      e <- f tt ;;
      es <- build_instances rest ;;
      Ok (e :: es)
  end.

Definition fresh_slot (e : Env) : Slot :=
  {| inst := e; ended := false; pending := None |}.

Definition SyncVectorEnv (fns : list (unit -> result Env)) : result SeqExec :=
  es <- build_instances fns ;;
  Ok {| seq_state := DEFAULT; seq_slots := map fresh_slot es |}.

(** Modelled from the spec: the guard every batched call but [close]
    starts with (VectorEnv contract, absent from the sources). *)
Definition check_state (st : ExecutorState) : result unit :=
  if is_closed st then Raise ClosedError
  else if is_default st then Ok tt
  else Raise ConcurrentCallError.

(** Modelled from the spec: the batched calls of the sequential executor
    (absent from the sources).  Each returns the executor as the call
    left it and what the caller receives. *)
Definition seq_seed (seed : SeedArg) (e : SeqExec) : SeqExec * result Output :=
  match check_state (seq_state e) with
  | Raise x => (e, Raise x)
  | Ok _ =>
      match spread_seed (length (seq_slots e)) seed with
      | Raise x => (e, Raise x)
      | Ok seeds =>
          ({| seq_state := seq_state e;
              seq_slots := map (fun p => set_pending (fst p) (snd p))
                               (combine (seq_slots e) seeds) |}, Ok OutNone)
      end
  end.

Definition seq_reset (seed : SeedArg) (options : option Options) (e : SeqExec)
  : SeqExec * result Output :=
  match check_state (seq_state e) with
  | Raise x => (e, Raise x)
  | Ok _ =>
      match spread_seed (length (seq_slots e)) seed with
      | Raise x => (e, Raise x)
      | Ok seeds =>
          let (slots, r) := seq_each (slot_reset options) (seq_slots e) seeds in
          ({| seq_state := seq_state e; seq_slots := slots |},
           match r with
           | Ok rs => Ok (OutReset (fst (batch_resets rs)) (snd (batch_resets rs)))
           | Raise x => Raise x
           end)
      end
  end.

Definition seq_step (actions : list Action) (e : SeqExec)
  : SeqExec * result Output :=
  match check_state (seq_state e) with
  | Raise x => (e, Raise x)
  | Ok _ =>
      if negb (Nat.eqb (length actions) (length (seq_slots e)))
      then (e, Raise InvalidBatchSizeError)
      else
        let (slots, r) := seq_each slot_step (seq_slots e) actions in
        ({| seq_state := seq_state e; seq_slots := slots |},
         match r with
         | Ok ts => Ok (OutStep (batch_transitions ts))
         | Raise x => Raise x
         end)
  end.

Definition seq_close (e : SeqExec) : SeqExec * result Output :=
  if is_closed (seq_state e) then (e, Ok OutNone)
  else ({| seq_state := CLOSED; seq_slots := map slot_close (seq_slots e) |},
        Ok OutNone).

Definition seq_call (c : Call) (e : SeqExec) : SeqExec * result Output :=
  match c with
  | CallReset seed options => seq_reset seed options e
  | CallStep actions => seq_step actions e
  | CallSeed seed => seq_seed seed e
  | CallClose => seq_close e
  end.

(** *** Parallel executor *)

(** Commands sent from the parent to a worker, and the one response each
    of them elicits. *)
Inductive Command : Type :=
| RESET (seed : option Z) (options : option Options)
| STEP (a : Action)
| SEED (seed : option Z)
| CLOSE.

Inductive Payload : Type :=
| PReset (r : Obs * Info)
| PStep (t : Transition)
| PAck.

Inductive Response : Type :=
| Success (p : Payload)
| Failure (e : exn).

(** A worker process: it owns its instance and the seed stored for the
    next reset; [Broken] is a worker whose factory raised; [Exited] is a
    process that is gone. *)
Inductive Worker : Type :=
| Running (i : Env) (seed : option Z)
| Broken (e : exn)
| Exited.

Definition wrap {A : Type} (f : A -> Payload) (r : result A) : Response :=
  match r with
  | Ok a => Success (f a)
  | Raise e => Failure e
  end.

(** Modelled from the spec: one iteration of the Worker Loop (absent from
    the sources): dispatch the command to the instance's matching
    operation and wrap the result or the raised failure into a response;
    on [CLOSE] release the instance and exit.  An exited process sends
    nothing. *)
Definition worker_loop (c : Command) (w : Worker) : Worker * option Response :=
  match w with
  | Running i stored =>
      match c with
      | RESET seed options =>
          let used := match seed with Some _ => seed | None => stored end in
          let (i', r) := env_reset i used options in
          (Running i' None, Some (wrap PReset r))
      | STEP a =>
          let (i', r) := env_step i a in
          (Running i' stored, Some (wrap PStep r))
      | SEED seed => (Running i seed, Some (Success PAck))
      | CLOSE => let _ := env_close i in (Exited, Some (Success PAck))
      end
  | Broken e =>
      match c with
      | CLOSE => (Exited, Some (Success PAck))
      | _ => (Broken e, Some (Failure e))
      end
  | Exited => (Exited, None)
  end.

(** Worker Handle: the worker process, the command-out and result-in
    channels (each holds at most one message), and the parent's note of
    whether the slot's previous step ended an episode. *)
Record Handle : Type := mkHandle {
  worker : Worker;
  cmd_out : option Command;
  res_in : option Response;
  h_ended : bool
}.

Record ParExec : Type := mkPar {
  par_state : ExecutorState;
  handles : list Handle
}.

(** The parent puts a command on a handle's command channel. *)
Definition send (c : Command) (h : Handle) : Handle :=
  {| worker := worker h; cmd_out := Some c;
     res_in := res_in h; h_ended := h_ended h |}.

(** The worker behind a handle runs: if a command is waiting it performs
    one loop iteration, otherwise it stays blocked. *)
Definition run_worker (h : Handle) : Handle :=
  match cmd_out h with
  | None => h
  | Some c =>
      let (w, r) := worker_loop c (worker h) in
      {| worker := w; cmd_out := None; res_in := r; h_ended := h_ended h |}
  end.

Fixpoint update_nth {A : Type} (k : nat) (f : A -> A) (l : list A) : list A :=
  match l, k with
  | [], _ => []
  | x :: rest, O => f x :: rest
  | x :: rest, S k' => x :: update_nth k' f rest
  end.

(** The workers run concurrently and in no fixed order: a schedule lists
    the slots in the order in which their workers get to run. *)
Definition run_sched (sched : list nat) (hs : list Handle) : list Handle :=
  fold_left (fun hs k => update_nth k run_worker hs) sched hs.

(** The parent awaits the response of one handle: it blocks until the
    worker has answered, and takes the response off the channel.  A
    worker that is gone never answers, which counts as a failure. *)
Definition await (h : Handle) : Handle * Response :=
  let h' := run_worker h in
  ({| worker := worker h'; cmd_out := cmd_out h';
      res_in := None; h_ended := h_ended h' |},
   match res_in h' with
   | Some r => r
   | None => Failure (ExternalError "worker channel closed")
   end).

(** Modelled from the spec: steps 3 and 4 of the batched-call protocol
    (parallel executor, absent from the sources): send every command
    without waiting, let the workers run, collect in slot order. *)
Definition fire (cmds : list Command) (hs : list Handle) : list Handle :=
  map (fun p => send (snd p) (fst p)) (combine hs cmds).

Definition collect (hs : list Handle) : list Handle * list Response :=
  (map (fun h => fst (await h)) hs, map (fun h => snd (await h)) hs).

Definition exchange (sched : list nat) (cmds : list Command)
           (hs : list Handle) : list Handle * list Response :=
  collect (run_sched sched (fire cmds hs)).

(** Unwrapping the responses in slot order; the first failure is captured
    as a [WorkerError] naming its slot. *)
Definition unwrap {R : Type} (conv : Payload -> result R) (r : Response)
  : result R :=
  match r with
  | Success p => conv p
  | Failure e => Raise e
  end.

Fixpoint gather {R : Type} (conv : Payload -> result R) (k : nat)
         (rs : list Response) : result (list R) :=
  match rs with
  | [] => Ok []
  | r :: rest =>
      match unwrap conv r with
      | Raise e => Raise (WorkerError k e)
      | Ok v =>
          match gather conv (S k) rest with
          | Ok vs => Ok (v :: vs)
          | Raise e => Raise e
          end
      end
  end.

Definition payload_reset (p : Payload) : result (Obs * Info) :=
  match p with PReset r => Ok r | _ => Raise TypeError end.

Definition payload_transition (p : Payload) : result Transition :=
  match p with
  | PStep t => Ok t
  | PReset r => Ok (reset_as_transition r)
  | PAck => Raise TypeError
  end.

Definition payload_ack (p : Payload) : result unit :=
  match p with PAck => Ok tt | _ => Raise TypeError end.

(** Closing every worker handle: [CLOSE] is sent to all of them, the
    acknowledgements are collected, and whatever has not exited by then
    is terminated. *)
Definition terminate (h : Handle) : Handle :=
  {| worker := Exited; cmd_out := None; res_in := None; h_ended := h_ended h |}.

Definition close_handles (sched : list nat) (hs : list Handle) : list Handle :=
  map terminate (fst (exchange sched (map (fun _ => CLOSE) hs) hs)).

Definition set_ended (h : Handle) (b : bool) : Handle :=
  {| worker := worker h; cmd_out := cmd_out h;
     res_in := res_in h; h_ended := b |}.

(** Steps 5 and 6 of the batched-call protocol. *)
Definition conclude {R : Type} (hs : list Handle) (r : result (list R))
           (ended_of : R -> bool) (out : list R -> Output)
  : ParExec * result Output :=
  match r with
  | Ok vs =>
      ({| par_state := DEFAULT;
          handles := map (fun p => set_ended (fst p) (ended_of (snd p)))
                         (combine hs vs) |}, Ok (out vs))
  | Raise e =>
      ({| par_state := CLOSED; handles := close_handles [] hs |}, Raise e)
  end.

(** Modelled from the spec: the parallel executor's constructor
    ([AsyncVectorEnv], absent from the sources): one worker per slot,
    each invoking its factory inside the worker.  Only the spawning of
    the workers is modelled; deriving the spaces and comparing them
    across the instances is left out. *)
Definition spawn (f : unit -> result Env) : Handle :=
  {| worker := match f tt with Ok i => Running i None | Raise e => Broken e end;
     cmd_out := None; res_in := None; h_ended := false |}.

Definition AsyncVectorEnv (fns : list (unit -> result Env)) : result ParExec :=
  Ok {| par_state := DEFAULT; handles := map spawn fns |}.

(** Modelled from the spec: the batched calls of the parallel executor
    (absent from the sources). *)
Definition step_command (h : Handle) (a : Action) : Command :=
  if h_ended h then RESET None None else STEP a.

(** What the parent sees of one slot in the exchange of a step. *)
Definition step_exchange (h : Handle) (a : Action) : Handle * Response :=
  await (send (step_command h a) h).

Definition par_step (sched : list nat) (actions : list Action) (p : ParExec)
  : ParExec * result Output :=
  match check_state (par_state p) with
  | Raise x => (p, Raise x)
  | Ok _ =>
      if negb (Nat.eqb (length actions) (length (handles p)))
      then (p, Raise InvalidBatchSizeError)
      else
        let waiting := {| par_state := WAITING_STEP; handles := handles p |} in
        let cmds := map (fun q => step_command (fst q) (snd q))
                        (combine (handles waiting) actions) in
        let (hs, rs) := exchange sched cmds (handles waiting) in
        conclude hs (gather payload_transition 0 rs) episode_over
                 (fun ts => OutStep (batch_transitions ts))
  end.

Definition par_reset (sched : list nat) (seed : SeedArg)
           (options : option Options) (p : ParExec) : ParExec * result Output :=
  match check_state (par_state p) with
  | Raise x => (p, Raise x)
  | Ok _ =>
      match spread_seed (length (handles p)) seed with
      | Raise x => (p, Raise x)
      | Ok seeds =>
          let waiting := {| par_state := WAITING_RESET; handles := handles p |} in
          let cmds := map (fun s => RESET s options) seeds in
          let (hs, rs) := exchange sched cmds (handles waiting) in
          conclude hs (gather payload_reset 0 rs) (fun _ => false)
                   (fun l => OutReset (fst (batch_resets l)) (snd (batch_resets l)))
      end
  end.

Definition par_seed (sched : list nat) (seed : SeedArg) (p : ParExec)
  : ParExec * result Output :=
  match check_state (par_state p) with
  | Raise x => (p, Raise x)
  | Ok _ =>
      match spread_seed (length (handles p)) seed with
      | Raise x => (p, Raise x)
      | Ok seeds =>
          let (hs, rs) := exchange sched (map SEED seeds) (handles p) in
          match gather payload_ack 0 rs with
          | Ok _ => ({| par_state := DEFAULT; handles := hs |}, Ok OutNone)
          | Raise e =>
              ({| par_state := CLOSED; handles := close_handles [] hs |}, Raise e)
          end
      end
  end.

Definition par_close (sched : list nat) (p : ParExec) : ParExec * result Output :=
  if is_closed (par_state p) then (p, Ok OutNone)
  else ({| par_state := CLOSED; handles := close_handles sched (handles p) |},
        Ok OutNone).

Definition par_call (sched : list nat) (c : Call) (p : ParExec)
  : ParExec * result Output :=
  match c with
  | CallReset seed options => par_reset sched seed options p
  | CallStep actions => par_step sched actions p
  | CallSeed seed => par_seed sched seed p
  | CallClose => par_close sched p
  end.

(** *** The VectorEnv contract over both executors *)

Inductive VectorEnv : Type :=
| Sequential (e : SeqExec)
| Parallel (p : ParExec).

Definition ve_state (v : VectorEnv) : ExecutorState :=
  match v with
  | Sequential e => seq_state e
  | Parallel p => par_state p
  end.

(** A batched call is dispatched to the executor behind the contract;
    the schedule matters to the parallel executor only. *)
Definition ve_call (sched : list nat) (c : Call) (v : VectorEnv)
  : VectorEnv * result Output :=
  match v with
  | Sequential e => let (e', r) := seq_call c e in (Sequential e', r)
  | Parallel p => let (p', r) := par_call sched c p in (Parallel p', r)
  end.

(** A caller's session: the calls, each with the schedule under which
    the workers happen to run, and what every call returned. *)
Fixpoint run (calls : list (list nat * Call)) (v : VectorEnv)
  : list (result Output) :=
  match calls with
  | [] => []
  | (sched, c) :: rest =>
      let (v', r) := ve_call sched c v in
      r :: run rest v'
  end.

(** The executor a session leaves behind. *)
Definition after (calls : list (list nat * Call)) (v : VectorEnv) : VectorEnv :=
  fold_left (fun v sc => fst (ve_call (fst sc) (snd sc) v)) calls v.

(** The constructors as [make] sees them. *)
Definition sync_vector_env (fns : list (unit -> result Env)) : result VectorEnv :=
  e <- SyncVectorEnv fns ;; Ok (Sequential e).

Definition async_vector_env (fns : list (unit -> result Env)) : result VectorEnv :=
  p <- AsyncVectorEnv fns ;; Ok (Parallel p).

(** *** Observing a slot, and relating the two executors *)

(** The instance bound to slot [k] and the seed waiting for its next
    reset, wherever the executor keeps them. *)
Definition slot_view (v : VectorEnv) (k : nat) : option (Env * option Z) :=
  match v with
  | Sequential e =>
      match nth_error (seq_slots e) k with
      | Some s => Some (inst s, pending s)
      | None => None
      end
  | Parallel p =>
      match nth_error (handles p) k with
      | Some {| worker := Running i seed |} => Some (i, seed)
      | _ => None
      end
  end.

(** The idle worker handle that holds what a sequential slot holds. *)
Definition handle_of (s : Slot) : Handle :=
  {| worker := Running (inst s) (pending s);
     cmd_out := None; res_in := None; h_ended := ended s |}.

(** One slot: the parent's exchange with the worker of an idle handle
    against the sequential operation on the slot it mirrors. *)
Definition slot_agrees {X R : Type} (op : Slot -> X -> Slot * result R)
           (cmd : Slot -> X -> Command) (conv : Payload -> result R)
           (ended_of : Slot -> R -> bool) : Prop :=
  forall (s : Slot) (x : X),
    match op s x with
    | (s', Ok v) =>
        unwrap conv (snd (await (send (cmd s x) (handle_of s)))) = Ok v
        /\ set_ended (fst (await (send (cmd s x) (handle_of s)))) (ended_of s v)
           = handle_of s'
    | (_, Raise e) =>
        unwrap conv (snd (await (send (cmd s x) (handle_of s)))) = Raise e
    end.

(** A parallel executor and a sequential one are in step when both are
    idle and slot for slot hold the same instance, seed and episode flag,
    or when both are closed. *)
Definition in_step (p : ParExec) (e : SeqExec) : Prop :=
  (par_state p = DEFAULT /\ seq_state e = DEFAULT
   /\ handles p = map handle_of (seq_slots e))
  \/ (par_state p = CLOSED /\ seq_state e = CLOSED).

(** What closing did to an executor that was still open: the sequential
    executor has closed every instance, the parallel one has no worker
    process left. *)
Definition released (before after : VectorEnv) : Prop :=
  match before, after with
  | Sequential e, Sequential e' =>
      map inst (seq_slots e') = map env_close (map inst (seq_slots e))
  | Parallel p, Parallel p' =>
      length (handles p') = length (handles p)
      /\ Forall (fun h => worker h = Exited) (handles p')
  | _, _ => False
  end.

End Executors.

(** ** A concrete instance: the counter environment

    The counter instance of the end-to-end scenario: the observation is
    the step count, and the episode ends when the count reaches the limit
    (2 unless configured otherwise).  A negative action is invalid and
    makes [step] raise. *)
Module Counter.

Record env : Type := mkEnv {
  count : Z;
  limit : Z;
  closed : bool
}.

Definition reset (e : env) (seed : option Z) (options : option unit)
  : env * result (Z * unit) :=
  let start := match seed with Some s => s | None => 0 end in
  ({| count := start; limit := limit e; closed := closed e |}, Ok (start, tt)).

Definition step (e : env) (a : Z)
  : env * result (Z * Z * bool * bool * unit) :=
  if a <? 0 then (e, Raise (ExternalError "invalid action"))
  else
    let c := count e + 1 in
    ({| count := c; limit := limit e; closed := closed e |},
     Ok (c, 1, c =? limit e, false, tt)).

Definition close (e : env) : env :=
  {| count := count e; limit := limit e; closed := true |}.

#[export] Instance contract : Contract := {|
  Env := env;
  Obs := Z;
  Action := Z;
  Reward := Z;
  Info := unit;
  Options := unit;
  reward_zero := 0;
  env_reset := reset;
  env_step_raw := step;
  env_close := close
|}.

(** A registry knowing one id; the keyword argument is the limit. *)
Definition registry (id : string) (kwargs : option Z) : result env :=
  if String.eqb id "Counter-v0"
  then Ok {| count := 0; limit := match kwargs with Some l => l | None => 2 end;
             closed := false |}
  else Raise (ExternalError "unregistered id").

(** A wrapper that lengthens the episode by one step. *)
Definition longer (e : env) : result env :=
  Ok {| count := count e; limit := limit e + 1; closed := closed e |}.

(** [gym.vector.make] over this registry and the two executors. *)
Definition vmake (id : string) (n : Z) (asynchronous : bool)
           (wrappers : pyobj env) (kwargs : option Z) : result VectorEnv :=
  make registry async_vector_env sync_vector_env id n asynchronous wrappers kwargs.

(** Three counters behind either executor. *)
Definition trio (asynchronous : bool) : VectorEnv :=
  match vmake "Counter-v0" 3 asynchronous PyNone None with
  | Ok v => v
  | Raise _ => Sequential {| seq_state := CLOSED; seq_slots := [] |}
  end.

(** A Python int passed as [wrappers]: neither callable nor iterable. *)
Definition an_int : pyobj env := PyObj None None.

(** A wrapper that refuses every instance. *)
Definition refusing (e : env) : result env :=
  Raise (ExternalError "wrapper refused").

(** Sessions and states used in the checks on this environment. *)
Definition session : list (list nat * Call) :=
  [([], CallReset (SeedInt 1) None); ([2; 0; 1]%nat, CallStep [3; 1; 4]);
   ([1; 1; 7]%nat, CallSeed (SeedSeq [5; 6; 7])); ([0]%nat, CallStep [1; 5; 9]);
   ([2; 1]%nat, CallStep [2; 6; 5]); ([], CallClose)].

(** Three counters one step before the end of their episode. *)
Definition mid_episode (asynchronous : bool) : VectorEnv :=
  after [([], CallReset SeedNone None); ([], CallStep [0; 0; 0]);
         ([], CallSeed (SeedSeq [10; 20; 30]))]
        (trio asynchronous).

Definition last_batch : Batch :=
  mkBatch [2; 2; 2] [1; 1; 1] [true; true; true] [false; false; false]
          [tt; tt; tt].

Definition reset_batch : Batch :=
  mkBatch [10; 20; 30] [0; 0; 0] [false; false; false] [false; false; false]
          [tt; tt; tt].

Definition last_step : VectorEnv * result Output :=
  ve_call [1]%nat (CallStep [0; 0; 0]) (mid_episode true).

Definition next_step : VectorEnv * result Output :=
  ve_call [2; 0]%nat (CallStep [4; 5; 6]) (fst last_step).

End Counter.

(** * Properties of [make] and its factories *)

Section MakeFacts.

Variables (E Id Kwargs : Type).
Variable make_ : Id -> Kwargs -> result E.

Lemma range_length (n : Z) : 0 <= n -> Z.of_nat (length (range n)) = n.
Proof.
  intros Hn. unfold range. rewrite length_map, length_seq. lia.
Qed.

Lemma env_fns_repeat (id : Id) (n : Z) (w : pyobj E) (kw : Kwargs) :
  env_fns make_ id n w kw = repeat (_make_env make_ id kw w) (Z.to_nat n).
Proof.
  unfold env_fns, range. generalize 0%nat.
  induction (Z.to_nat n) as [|k IH]; intros start; simpl.
  - reflexivity.
  - f_equal. apply IH.
Qed.

(** C2: [make] returns the parallel executor's constructor applied to the
    list of factories when [asynchronous] is true, the sequential
    executor's constructor applied to the same list when it is false, and
    never anything else. *)
Theorem make_dispatch (VE : Type) (AsyncVE SyncVE : list (factory E) -> VE)
        (id : Id) (n : Z) (w : pyobj E) (kw : Kwargs) :
  make make_ AsyncVE SyncVE id n true w kw = AsyncVE (env_fns make_ id n w kw)
  /\ make make_ AsyncVE SyncVE id n false w kw = SyncVE (env_fns make_ id n w kw)
  /\ forall b : bool,
      make make_ AsyncVE SyncVE id n b w kw = AsyncVE (env_fns make_ id n w kw)
      \/ make make_ AsyncVE SyncVE id n b w kw = SyncVE (env_fns make_ id n w kw).
Proof.
  repeat split.
  intros [|]; [left | right]; reflexivity.
Qed.

Lemma traced_env_fns_repeat (id : Id) (n : Z) (w : pyobj E) (kw : Kwargs) :
  Traced.env_fns make_ id n w kw
  = repeat (Traced._make_env make_ id kw w) (Z.to_nat n).
Proof.
  unfold Traced.env_fns, range. generalize 0%nat.
  induction (Z.to_nat n) as [|k IH]; intros start; simpl.
  - reflexivity.
  - f_equal. apply IH.
Qed.

Lemma traced_call_result (o : pyobj E) (env : E) :
  snd (Traced.call (Id:=Id) (Kwargs:=Kwargs) o env) = py_call o env.
Proof. destruct o as [|[f|] it]; reflexivity. Qed.

Lemma traced_call_constructions (o : pyobj E) (env : E) :
  Traced.constructions (fst (Traced.call (Id:=Id) (Kwargs:=Kwargs) o env)) = 0%nat.
Proof. destruct o as [|[f|] it]; reflexivity. Qed.

Lemma constructions_app (t t' : list (Traced.event E Id Kwargs)) :
  Traced.constructions (t ++ t')
  = (Traced.constructions t + Traced.constructions t')%nat.
Proof. unfold Traced.constructions. now rewrite filter_app, length_app. Qed.

(** Erasing the record of a traced loop leaves the loop of the factory. *)
Lemma traced_for_wrappers_result (items : list (pyobj E)) (env : E) :
  snd (Traced.for_wrappers (Id:=Id) (Kwargs:=Kwargs) items env)
  = for_wrappers items env.
Proof.
  revert env. induction items as [|o items IH]; intros env; cbn [Traced.for_wrappers for_wrappers].
  - reflexivity.
  - pose proof (traced_call_result o env) as Hc.
    destruct (Traced.call o env) as [t [env'|e]]; cbn [snd] in Hc; rewrite <- Hc;
      cbn [Traced.bind bind]; [|reflexivity].
    specialize (IH env'). destruct (Traced.for_wrappers items env') as [t' r].
    exact IH.
Qed.

Lemma traced_for_wrappers_constructions (items : list (pyobj E)) (env : E) :
  Traced.constructions
    (fst (Traced.for_wrappers (Id:=Id) (Kwargs:=Kwargs) items env)) = 0%nat.
Proof.
  revert env. induction items as [|o items IH]; intros env; cbn [Traced.for_wrappers].
  - reflexivity.
  - pose proof (traced_call_constructions o env) as Hc.
    destruct (Traced.call o env) as [t [env'|e]]; cbn [fst] in Hc;
      cbn [Traced.bind]; [|exact Hc].
    specialize (IH env'). destruct (Traced.for_wrappers items env') as [t' r].
    cbn [fst] in *. now rewrite constructions_app, Hc, IH.
Qed.

(** One invocation of the traced factory: the registry is called first
    and only once, and the result is that of [_make_env]. *)
Lemma traced_factory_invocation (id : Id) (kw : Kwargs) (w : pyobj E) :
  exists later,
    fst (Traced._make_env make_ id kw w tt) = Traced.Construct id kw :: later
    /\ Traced.constructions later = 0%nat
    /\ snd (Traced._make_env make_ id kw w tt) = _make_env make_ id kw w tt.
Proof.
  unfold Traced._make_env, _make_env, Traced.call_registry.
  destruct (make_ id kw) as [env|e]; cbn [Traced.bind bind];
    [|exists []; repeat split].
  destruct (negb (is_none w)); [|exists []; repeat split].
  destruct (callable w).
  - pose proof (traced_call_result w env) as Hr.
    pose proof (traced_call_constructions w env) as Hc.
    destruct (Traced.call w env) as [t r]. exists t. repeat split; assumption.
  - destruct (iterable_of_callables w); [|exists []; repeat split].
    unfold Traced.iter, py_iter. destruct (iterable w) as [items|];
      cbn [Traced.bind bind]; [|exists []; repeat split].
    pose proof (traced_for_wrappers_result items env) as Hr.
    pose proof (traced_for_wrappers_constructions items env) as Hc.
    destruct (Traced.for_wrappers items env) as [t r]. exists t.
    repeat split; assumption.
Qed.

(** C3: for [num_envs = n >= 0] the executor chosen by [make] receives
    exactly [n] factories, every one of them the one closure [_make_env].
    Each invocation of any of them calls the registry once, first, and
    returns what [_make_env] yields: for a registered id the instance
    just constructed when there are no wrappers, and the wrapper applied
    to it when [wrappers] is a callable. *)
Theorem make_supplies_n_factories (VE : Type)
        (AsyncVE SyncVE : list (Traced.factory E Id Kwargs)
                          -> Traced.traced E Id Kwargs VE)
        (id : Id) (n : Z) (b : bool) (w : pyobj E) (kw : Kwargs) :
  0 <= n ->
  exists fns : list (Traced.factory E Id Kwargs),
    Traced.make make_ AsyncVE SyncVE id n b w kw
    = (if b then AsyncVE else SyncVE) fns
    /\ Z.of_nat (length fns) = n
    /\ Forall (fun f => f = Traced._make_env make_ id kw w) fns
    /\ (forall (i j : nat) (f g : Traced.factory E Id Kwargs),
           nth_error fns i = Some f -> nth_error fns j = Some g -> f = g)
    /\ Forall2 (fun f g => snd (f tt) = g tt) fns (env_fns make_ id n w kw)
    /\ Forall (fun f => exists later,
                   fst (f tt) = Traced.Construct id kw :: later
                   /\ Traced.constructions later = 0%nat
                   /\ snd (f tt) = _make_env make_ id kw w tt) fns
    /\ forall base : E,
        make_ id kw = Ok base ->
        (is_none w = true ->
         Forall (fun f => f tt = ([Traced.Construct id kw], Ok base)) fns)
        /\ (forall (g : E -> result E) (it : option (list (pyobj E))),
               w = PyObj (Some g) it ->
               Forall (fun f => f tt
                                = ([Traced.Construct id kw; Traced.Wrap w base],
                                   g base)) fns).
Proof.
  intros Hn. exists (Traced.env_fns make_ id n w kw).
  split; [destruct b; reflexivity|].
  split.
  { unfold Traced.env_fns. rewrite length_map. now apply range_length. }
  assert (Hall : Forall (fun f => f = Traced._make_env make_ id kw w)
                        (Traced.env_fns make_ id n w kw)).
  { rewrite traced_env_fns_repeat. apply Forall_forall. intros f Hin.
    now apply repeat_spec in Hin. }
  split; [exact Hall|].
  split.
  { intros i j f g Hf Hg. rewrite Forall_forall in Hall.
    apply nth_error_In in Hf, Hg. now rewrite (Hall f Hf), (Hall g Hg). }
  split.
  { rewrite traced_env_fns_repeat, env_fns_repeat.
    destruct (traced_factory_invocation id kw w) as [later [_ [_ Hr]]].
    induction (Z.to_nat n) as [|k IH]; simpl; constructor; assumption. }
  split.
  { eapply Forall_impl; [|exact Hall]. intros f ->.
    apply traced_factory_invocation. }
  intros base Hbase. split.
  - intros Hnone. eapply Forall_impl; [|exact Hall]. intros f ->.
    unfold Traced._make_env, Traced.call_registry. rewrite Hbase, Hnone.
    reflexivity.
  - intros g it ->. eapply Forall_impl; [|exact Hall]. intros f ->.
    unfold Traced._make_env, Traced.call_registry. rewrite Hbase. reflexivity.
Qed.

Lemma for_wrappers_callables (ws : list ((E -> result E) * option (list (pyobj E))))
      (env : E) :
  for_wrappers (map (fun p => PyObj (Some (fst p)) (snd p)) ws) env
  = fold_left (fun r p => bind r (fst p)) ws (Ok env).
Proof.
  revert env. induction ws as [|[f it] ws IH]; intros env; simpl.
  - reflexivity.
  - destruct (f env) as [env'|e]; simpl.
    + apply IH.
    + clear IH. induction ws as [|p ws IH']; simpl; [reflexivity | exact IH'].
Qed.

Lemma forallb_callables (ws : list ((E -> result E) * option (list (pyobj E)))) :
  forallb callable (map (fun p => PyObj (Some (fst p)) (snd p)) ws) = true.
Proof. induction ws as [|p ws IH]; simpl; [reflexivity | exact IH]. Qed.

Lemma fold_bind_raise (ws : list ((E -> result E) * option (list (pyobj E))))
      (e : exn) :
  fold_left (fun r p => bind r (fst p)) ws (Raise e) = Raise e.
Proof. induction ws as [|p ws IH]; simpl; [reflexivity | exact IH]. Qed.

(** C4: the factory itself composes the wrappers.  With a single callable
    [w] an invocation returns [w] applied to the instance the registry has
    just constructed; with a sequence of callables [[w1; ...; wk]] it
    returns [wk (... (w2 (w1 base)))], the first wrapper innermost; for
    wrappers that do not raise this is the left fold of application over
    the sequence. *)
Theorem factory_composes_wrappers (id : Id) (kw : Kwargs) :
  (forall (w : E -> result E) (it : option (list (pyobj E))),
      _make_env make_ id kw (PyObj (Some w) it) tt = bind (make_ id kw) w)
  /\ (forall ws : list ((E -> result E) * option (list (pyobj E))),
         _make_env make_ id kw
                   (py_list (map (fun p => PyObj (Some (fst p)) (snd p)) ws)) tt
         = fold_left (fun r p => bind r (fst p)) ws (make_ id kw))
  /\ (forall gs : list (E -> E),
         _make_env make_ id kw
                   (py_list (map (fun g => py_fun (fun e => Ok (g e))) gs)) tt
         = bind (make_ id kw)
                (fun base => Ok (fold_left (fun e g => g e) gs base))).
Proof.
  split; [|split].
  - intros w it. unfold _make_env. destruct (make_ id kw); reflexivity.
  - intros ws. unfold _make_env, py_list, iterable_of_callables, py_iter.
    cbn [is_none negb callable iterable]. rewrite forallb_callables.
    destruct (make_ id kw) as [env|e]; cbn [bind].
    + apply for_wrappers_callables.
    + symmetry. apply fold_bind_raise.
  - intros gs. unfold _make_env, py_list, iterable_of_callables, py_iter.
    cbn [is_none negb callable iterable].
    replace (forallb callable (map (fun g => py_fun (fun e => Ok (g e))) gs))
      with true.
    + destruct (make_ id kw) as [base|e]; cbn [bind]; [|reflexivity].
      revert base. induction gs as [|g gs IH]; intros base; simpl.
      * reflexivity.
      * apply IH.
    + clear. induction gs as [|g gs IH]; simpl; [reflexivity | exact IH].
Qed.

(** C9: passing a single callable [w] and passing the one-element list
    [[w]] give factories that construct the same environment, namely [w]
    applied once to the base instance. *)
Theorem single_wrapper_same_as_singleton_list
        (id : Id) (n : Z) (kw : Kwargs)
        (w : E -> result E) (it : option (list (pyobj E))) :
  _make_env make_ id kw (PyObj (Some w) it) tt = bind (make_ id kw) w
  /\ _make_env make_ id kw (py_list [PyObj (Some w) it]) tt = bind (make_ id kw) w
  /\ Forall2 (fun f g => f tt = g tt)
             (env_fns make_ id n (PyObj (Some w) it) kw)
             (env_fns make_ id n (py_list [PyObj (Some w) it]) kw).
Proof.
  assert (H1 : _make_env make_ id kw (PyObj (Some w) it) tt = bind (make_ id kw) w).
  { unfold _make_env. destruct (make_ id kw); reflexivity. }
  assert (H2 : _make_env make_ id kw (py_list [PyObj (Some w) it]) tt
               = bind (make_ id kw) w).
  { unfold _make_env. destruct (make_ id kw) as [env|e]; simpl; [|reflexivity].
    destruct (w env); reflexivity. }
  repeat split; try assumption.
  rewrite !env_fns_repeat.
  induction (Z.to_nat n) as [|k IH]; simpl; constructor.
  - now rewrite H1, H2.
  - exact IH.
Qed.

(** C10: the empty sequence of wrappers behaves like [None]: the factories
    return the base instance with no wrapper applied. *)
Theorem empty_wrappers_same_as_none (id : Id) (n : Z) (kw : Kwargs) :
  _make_env make_ id kw (py_list []) tt = make_ id kw
  /\ _make_env make_ id kw PyNone tt = make_ id kw
  /\ Forall2 (fun f g => f tt = g tt)
             (env_fns make_ id n (py_list []) kw)
             (env_fns make_ id n PyNone kw).
Proof.
  assert (H1 : _make_env make_ id kw (py_list []) tt = make_ id kw).
  { unfold _make_env. destruct (make_ id kw); reflexivity. }
  assert (H2 : _make_env make_ id kw PyNone tt = make_ id kw).
  { unfold _make_env. destruct (make_ id kw); reflexivity. }
  repeat split; try assumption.
  rewrite !env_fns_repeat.
  induction (Z.to_nat n) as [|k IH]; simpl; constructor.
  - now rewrite H1, H2.
  - exact IH.
Qed.

End MakeFacts.

(** * More on the factories: counts, composition and failures *)

Section FactoryFacts.

Variables (E Id Kwargs : Type).
Variable make_ : Id -> Kwargs -> result E.

Lemma for_wrappers_app (l1 l2 : list (pyobj E)) (env : E) :
  for_wrappers (l1 ++ l2) env = bind (for_wrappers l1 env) (for_wrappers l2).
Proof.
  revert env. induction l1 as [|w l1 IH]; intros env; cbn [app for_wrappers].
  - reflexivity.
  - destruct (py_call w env) as [env'|e]; cbn [bind]; [apply IH | reflexivity].
Qed.

Lemma forallb_callable_app (l1 l2 : list (pyobj E)) :
  forallb callable l1 = true -> forallb callable l2 = true ->
  forallb callable (l1 ++ l2) = true.
Proof. intros H1 H2. now rewrite forallb_app, H1, H2. Qed.

Lemma factory_of_callables (id : Id) (kw : Kwargs) (items : list (pyobj E)) :
  forallb callable items = true ->
  _make_env make_ id kw (py_list items) tt
  = bind (make_ id kw) (for_wrappers items).
Proof.
  intros Hall. unfold _make_env, py_list, iterable_of_callables, py_iter.
  cbn [is_none negb callable iterable]. rewrite Hall.
  destruct (make_ id kw); reflexivity.
Qed.

(** The number of factories for any Python int: [range] is empty for a
    count that is zero or negative, so [make] then hands the executor the
    empty list; otherwise there are exactly [num_envs] of them. *)
Theorem factory_count_any_int (VE : Type)
        (AsyncVE SyncVE : list (factory E) -> VE)
        (id : Id) (n : Z) (b : bool) (w : pyobj E) (kw : Kwargs) :
  Z.of_nat (length (env_fns make_ id n w kw)) = Z.max 0 n
  /\ env_fns make_ id (Z.min n 0) w kw = []
  /\ make make_ AsyncVE SyncVE id (Z.min n 0) b w kw
     = (if b then AsyncVE else SyncVE) [].
Proof.
  assert (Hempty : env_fns make_ id (Z.min n 0) w kw = []).
  { rewrite env_fns_repeat. replace (Z.to_nat (Z.min n 0)) with 0%nat by lia.
    reflexivity. }
  split; [|split].
  - rewrite env_fns_repeat, repeat_length. lia.
  - exact Hempty.
  - unfold make. rewrite Hempty. destruct b; reflexivity.
Qed.

(** Wrapper lists concatenate: the factory for [l1 ++ l2] builds what the
    factory for [l1] builds and then runs the loop over [l2] on it. *)
Theorem wrapper_lists_concatenate (id : Id) (kw : Kwargs)
        (l1 l2 : list (pyobj E)) :
  forallb callable l1 = true ->
  forallb callable l2 = true ->
  _make_env make_ id kw (py_list (l1 ++ l2)) tt
  = bind (_make_env make_ id kw (py_list l1) tt) (for_wrappers l2).
Proof.
  intros H1 H2.
  rewrite (factory_of_callables id kw (l1 ++ l2) (forallb_callable_app _ _ H1 H2)).
  rewrite (factory_of_callables id kw l1 H1).
  destruct (make_ id kw) as [env|e]; cbn [bind]; [|reflexivity].
  apply for_wrappers_app.
Qed.

(** A wrapper that raises ends the loop: its exception leaves the factory
    and the wrappers after it are never applied. *)
Theorem raising_wrapper_stops_chain (id : Id) (kw : Kwargs)
        (l1 l2 : list (pyobj E)) (w : pyobj E) (env' : E) (e : exn) :
  forallb callable l1 = true ->
  callable w = true ->
  forallb callable l2 = true ->
  _make_env make_ id kw (py_list l1) tt = Ok env' ->
  py_call w env' = Raise e ->
  _make_env make_ id kw (py_list (l1 ++ w :: l2)) tt = Raise e.
Proof.
  intros H1 Hw H2 Hpre Hraise.
  assert (Hall : forallb callable (w :: l2) = true)
    by (cbn [forallb]; now rewrite Hw, H2).
  rewrite (factory_of_callables id kw _ (forallb_callable_app _ _ H1 Hall)).
  rewrite (factory_of_callables id kw l1 H1) in Hpre.
  destruct (make_ id kw) as [env|x]; cbn [bind] in *; [|discriminate].
  rewrite for_wrappers_app, Hpre. cbn [bind for_wrappers]. now rewrite Hraise.
Qed.

(** The callable check covers the whole iterable before the loop starts:
    one item that is not callable, wherever it stands, and no wrapper is
    applied at all; the factory raises [NotImplementedError] once the base
    instance exists. *)
Theorem non_callable_item_blocks_all (id : Id) (kw : Kwargs)
        (w x : pyobj E) (items : list (pyobj E)) :
  callable w = false ->
  iterable w = Some items ->
  In x items ->
  callable x = false ->
  _make_env make_ id kw w tt
  = bind (make_ id kw) (fun _ => Raise NotImplementedError).
Proof.
  intros Hw Hit Hin Hx.
  assert (Hall : forallb callable items = false).
  { destruct (forallb callable items) eqn:Hall; [|reflexivity].
    rewrite forallb_forall in Hall. rewrite (Hall x Hin) in Hx. discriminate. }
  unfold _make_env, iterable_of_callables. rewrite Hw, Hit, Hall.
  destruct w as [|call it]; [discriminate|]. reflexivity.
Qed.

(** A list of callables can be replaced by the one callable that applies
    them in order: both factories construct the same. *)
Theorem list_as_single_callable (id : Id) (kw : Kwargs)
        (items : list (pyobj E)) :
  forallb callable items = true ->
  _make_env make_ id kw (py_list items) tt
  = _make_env make_ id kw (py_fun (for_wrappers items)) tt.
Proof.
  intros Hall. rewrite (factory_of_callables id kw items Hall).
  unfold _make_env, py_fun. cbn [is_none negb callable py_call]. reflexivity.
Qed.

(** For [wrappers] that is [None], a callable, or a collection whose
    every traversal yields the same items (a list, a tuple), the only
    exception a factory raises on its own is [NotImplementedError]: when
    the registry returns an instance and no wrapper raises, an invocation
    returns an instance or raises [NotImplementedError], never the
    [TypeError] of calling a non-callable or iterating a non-iterable. *)
Theorem factory_raises_only_not_implemented (id : Id) (kw : Kwargs)
        (w : pyobj E) (base : E) :
  make_ id kw = Ok base ->
  total_wrapper w ->
  match iterable w with
  | Some items => Forall total_wrapper items
  | None => True
  end ->
  (exists env : E, _make_env make_ id kw w tt = Ok env)
  \/ _make_env make_ id kw w tt = Raise NotImplementedError.
Proof.
  intros Hbase Hw Hitems. unfold _make_env. rewrite Hbase. cbn [bind].
  destruct w as [|[f|] it]; cbn [is_none negb callable py_call].
  - left. now exists base.
  - left. cbn in Hw. specialize (Hw base). destruct (f base) as [env|x];
      [now exists env | discriminate].
  - unfold iterable_of_callables, py_iter. cbn [iterable] in *.
    destruct it as [items|]; [|now right].
    destruct (forallb callable items) eqn:Hall; [|now right].
    left. cbn [bind]. clear Hw Hbase. revert base.
    induction items as [|x items IH]; intros base; cbn [for_wrappers].
    + now exists base.
    + cbn [forallb] in Hall. apply andb_prop in Hall. destruct Hall as [Hx Hall].
      inversion Hitems as [|? ? Htx Hrest]; subst.
      destruct x as [|[f|] itx]; try discriminate. cbn [py_call].
      cbn in Htx. specialize (Htx base).
      destruct (f base) as [env|err]; [|discriminate]. cbn [bind].
      now apply IH.
Qed.

End FactoryFacts.

(** * Properties of the executors *)

Section ExecutorFacts.

Context {C : Contract}.

(** ** Scheduling does not matter *)

Lemma run_worker_idem (h : Handle) : run_worker (run_worker h) = run_worker h.
Proof.
  unfold run_worker at 2 3. destruct (cmd_out h) eqn:Hc.
  - destruct (worker_loop c (worker h)) as [w r]. reflexivity.
  - unfold run_worker. now rewrite Hc.
Qed.

Lemma await_run_worker (h : Handle) : await (run_worker h) = await h.
Proof. unfold await. now rewrite run_worker_idem. Qed.

Lemma map_await_update_nth {B : Type} (g : Handle * Response -> B)
      (k : nat) (hs : list Handle) :
  map (fun h => g (await h)) (update_nth k run_worker hs)
  = map (fun h => g (await h)) hs.
Proof.
  revert k. induction hs as [|h hs IH]; intros k.
  - destruct k; reflexivity.
  - destruct k as [|k]; cbn [update_nth map].
    + now rewrite await_run_worker.
    + now rewrite IH.
Qed.

Lemma collect_update_nth (k : nat) (hs : list Handle) :
  collect (update_nth k run_worker hs) = collect hs.
Proof.
  unfold collect.
  now rewrite (map_await_update_nth fst), (map_await_update_nth snd).
Qed.

Lemma collect_run_sched (sched : list nat) (hs : list Handle) :
  collect (run_sched sched hs) = collect hs.
Proof.
  unfold run_sched. revert hs. induction sched as [|k sched IH]; intros hs; simpl.
  - reflexivity.
  - rewrite IH. apply collect_update_nth.
Qed.

Lemma exchange_any_sched (sched : list nat) (cmds : list Command)
      (hs : list Handle) :
  exchange sched cmds hs = collect (fire cmds hs).
Proof. unfold exchange. apply collect_run_sched. Qed.

(** ** Closing *)

Lemma closed_absorbs_seq (e : SeqExec) (c : Call) :
  seq_state e = CLOSED -> fst (seq_call c e) = e.
Proof.
  intros H. destruct c; simpl;
    unfold seq_reset, seq_step, seq_seed, seq_close, check_state;
    rewrite H; reflexivity.
Qed.

Lemma closed_absorbs_par (p : ParExec) (s : list nat) (c : Call) :
  par_state p = CLOSED -> fst (par_call s c p) = p.
Proof.
  intros H. destruct c; simpl;
    unfold par_reset, par_step, par_seed, par_close, check_state;
    rewrite H; reflexivity.
Qed.

Lemma close_handles_length (s : list nat) (hs : list Handle) :
  length (close_handles s hs) = length hs.
Proof.
  unfold close_handles. rewrite exchange_any_sched. unfold collect, fire. simpl.
  rewrite !length_map, length_combine, length_map. lia.
Qed.

Lemma close_handles_exited (s : list nat) (hs : list Handle) :
  Forall (fun h => worker h = Exited) (close_handles s hs).
Proof.
  unfold close_handles. apply Forall_forall. intros h Hin.
  apply in_map_iff in Hin. destruct Hin as [h0 [<- _]]. reflexivity.
Qed.

(** C7: [close] never raises and leaves the executor [CLOSED]; on an
    executor that was still open it releases every slot; a second [close]
    returns normally and changes nothing, and so does every later call. *)
Theorem close_idempotent (v : VectorEnv) (s1 s2 : list nat) :
  exists v1 : VectorEnv,
    ve_call s1 CallClose v = (v1, Ok OutNone)
    /\ ve_state v1 = CLOSED
    /\ (if is_closed (ve_state v) then v1 = v else released v v1)
    /\ ve_call s2 CallClose v1 = (v1, Ok OutNone)
    /\ forall (s : list nat) (c : Call), fst (ve_call s c v1) = v1.
Proof.
  destruct v as [e|p]; simpl.
  - unfold seq_close. destruct (is_closed (seq_state e)) eqn:Hc.
    + exists (Sequential e). simpl.
      assert (Hst : seq_state e = CLOSED) by (destruct (seq_state e); easy).
      unfold seq_close. rewrite Hc. repeat split; try assumption.
      intros s c. pose proof (closed_absorbs_seq e c Hst) as H.
      destruct (seq_call c e) as [e' r]. simpl in *. now rewrite H.
    + eexists. split; [reflexivity|]. simpl. repeat split.
      * rewrite !map_map. reflexivity.
      * intros s c.
        set (e1 := {| seq_state := CLOSED; seq_slots := map slot_close (seq_slots e) |}).
        pose proof (closed_absorbs_seq e1 c eq_refl) as H.
        destruct (seq_call c e1) as [e' r]. simpl in *. now rewrite H.
  - unfold par_close. destruct (is_closed (par_state p)) eqn:Hc.
    + exists (Parallel p). simpl.
      assert (Hst : par_state p = CLOSED) by (destruct (par_state p); easy).
      unfold par_close. rewrite Hc. repeat split; try assumption.
      intros s c. pose proof (closed_absorbs_par p s c Hst) as H.
      destruct (par_call s c p) as [p' r]. simpl in *. now rewrite H.
    + eexists. split; [reflexivity|]. simpl. repeat split.
      * apply close_handles_length.
      * apply close_handles_exited.
      * intros s c.
        set (p1 := {| par_state := CLOSED; handles := close_handles s1 (handles p) |}).
        pose proof (closed_absorbs_par p1 s c eq_refl) as H.
        destruct (par_call s c p1) as [p' r]. simpl in *. now rewrite H.
Qed.

(** ** Slot-wise views of the batched operations *)

Lemma nth_error_combine {A B : Type} (l : list A) (l' : list B) (k : nat) :
  nth_error (combine l l') k
  = match nth_error l k, nth_error l' k with
    | Some a, Some b => Some (a, b)
    | _, _ => None
    end.
Proof.
  revert l' k. induction l as [|a l IH]; intros l' k.
  - destruct k; reflexivity.
  - destruct l' as [|b l'].
    + destruct k; simpl; [reflexivity|]. now destruct (nth_error l k).
    + destruct k; simpl; [reflexivity | apply IH].
Qed.

Lemma nth_error_map_some {A B : Type} (f : A -> B) (l : list A) (k : nat) (b : B) :
  nth_error (map f l) k = Some b ->
  exists a, nth_error l k = Some a /\ f a = b.
Proof.
  rewrite nth_error_map. destruct (nth_error l k) as [a|]; simpl; [|discriminate].
  intros [= <-]. now exists a.
Qed.

(** Every result of a successful sequential pass comes from applying the
    operation to the slot and the argument at the same position. *)
Lemma seq_each_ok_inv {X R : Type} (op : Slot -> X -> Slot * result R)
      (slots : list Slot) (xs : list X) (slots' : list Slot) (vs : list R) :
  seq_each op slots xs = (slots', Ok vs) ->
  forall (k : nat) (v : R),
    nth_error vs k = Some v ->
    exists s x s',
      nth_error slots k = Some s /\ nth_error xs k = Some x
      /\ op s x = (s', Ok v) /\ nth_error slots' k = Some s'.
Proof.
  revert xs slots' vs. induction slots as [|s slots IH]; intros xs slots' vs H k v Hk.
  - simpl in H. injection H as <- <-. destruct k; discriminate.
  - destruct xs as [|x xs].
    + simpl in H. injection H as <- <-. destruct k; discriminate.
    + simpl in H. destruct (op s x) as [s1 [v1|e]] eqn:Hop; [|discriminate].
      destruct (seq_each op slots xs) as [rest [vs1|e]] eqn:Hrest; [|discriminate].
      injection H as <- <-.
      destruct k as [|k]; simpl in *.
      * injection Hk as <-. now exists s, x, s1.
      * eapply IH; eauto.
Qed.

Lemma seq_each_ok_nth {X R : Type} (op : Slot -> X -> Slot * result R)
      (slots : list Slot) (xs : list X) (slots' : list Slot) (vs : list R) :
  seq_each op slots xs = (slots', Ok vs) ->
  forall (k : nat) (s : Slot) (x : X),
    nth_error slots k = Some s -> nth_error xs k = Some x ->
    exists s' v,
      op s x = (s', Ok v) /\ nth_error slots' k = Some s'
      /\ nth_error vs k = Some v.
Proof.
  revert xs slots' vs. induction slots as [|s0 slots IH]; intros xs slots' vs H k s x Hs Hx.
  - destruct k; discriminate.
  - destruct xs as [|x0 xs]; [destruct k; discriminate|].
    simpl in H. destruct (op s0 x0) as [s1 [v1|e]] eqn:Hop; [|discriminate].
    destruct (seq_each op slots xs) as [rest [vs1|e]] eqn:Hrest; [|discriminate].
    injection H as <- <-.
    destruct k as [|k]; simpl in *.
    + injection Hs as <-. injection Hx as <-. now exists s1, v1.
    + eapply IH; eauto.
Qed.

Lemma gather_ok_length {R : Type} (conv : Payload -> result R) (j : nat)
      (rs : list Response) (vs : list R) :
  gather conv j rs = Ok vs -> length vs = length rs.
Proof.
  revert j vs. induction rs as [|r rs IH]; intros j vs H; simpl in H.
  - now injection H as <-.
  - destruct (unwrap conv r); [|discriminate].
    destruct (gather conv (S j) rs) as [vs1|e] eqn:Hg; [|discriminate].
    injection H as <-. simpl. f_equal. eapply IH; eauto.
Qed.

Lemma gather_ok_nth {R : Type} (conv : Payload -> result R) (j : nat)
      (rs : list Response) (vs : list R) :
  gather conv j rs = Ok vs ->
  forall (k : nat) (r : Response),
    nth_error rs k = Some r ->
    exists p v, r = Success p /\ conv p = Ok v /\ nth_error vs k = Some v.
Proof.
  revert j vs. induction rs as [|r0 rs IH]; intros j vs H k r Hk; simpl in H.
  - destruct k; discriminate.
  - destruct r0 as [p0|e0]; [|discriminate]. cbn [unwrap] in H.
    destruct (conv p0) as [v0|e0] eqn:Hc; [|discriminate].
    destruct (gather conv (S j) rs) as [vs1|e] eqn:Hg; [|discriminate].
    injection H as <-.
    destruct k as [|k]; simpl in *.
    + injection Hk as <-. now exists p0, v0.
    + eapply IH; eauto.
Qed.

Lemma slot_step_ended (s s' : Slot) (a : Action) (t : Transition) :
  slot_step s a = (s', Ok t) -> ended s' = episode_over t.
Proof.
  unfold slot_step, slot_reset. destruct (ended s).
  - destruct (env_reset (inst s) (pending s) None) as [i [oi|e]]; [|discriminate].
    intros [= <- <-]. reflexivity.
  - destruct (env_step (inst s) a) as [i [t0|e]]; [|discriminate].
    intros [= <- <-]. reflexivity.
Qed.

Lemma episode_over_flag (ts : list Transition) (k : nat) :
  nth_error (map t_terminated ts) k = Some true
  \/ nth_error (map t_truncated ts) k = Some true ->
  exists t, nth_error ts k = Some t /\ episode_over t = true.
Proof.
  unfold episode_over.
  intros [H|H]; apply nth_error_map_some in H; destruct H as [t [Ht Hf]];
    exists t; rewrite Hf; split; auto using orb_true_r.
Qed.

(** ** Auto-reset *)

Lemma seq_step_ok_inv (actions : list Action) (e e' : SeqExec) (b : Batch) :
  seq_step actions e = (e', Ok (OutStep b)) ->
  exists ts,
    seq_each slot_step (seq_slots e) actions = (seq_slots e', Ok ts)
    /\ b = batch_transitions ts.
Proof.
  unfold seq_step. destruct (check_state (seq_state e)); [|discriminate].
  destruct (negb (length actions =? length (seq_slots e))%nat); [discriminate|].
  destruct (seq_each slot_step (seq_slots e) actions) as [slots [ts|x]];
    [|discriminate].
  intros [= <- <-]. now exists ts.
Qed.

Lemma seq_step_ok_length (actions : list Action) (e e' : SeqExec) (o : Output) :
  seq_step actions e = (e', Ok o) -> length actions = length (seq_slots e).
Proof.
  unfold seq_step. destruct (check_state (seq_state e)); [|discriminate].
  destruct (length actions =? length (seq_slots e))%nat eqn:H; [|discriminate].
  intros _. now apply Nat.eqb_eq.
Qed.

Lemma par_step_ok_inv (sched : list nat) (actions : list Action)
      (p p' : ParExec) (b : Batch) :
  par_step sched actions p = (p', Ok (OutStep b)) ->
  exists ts,
    gather payload_transition 0
           (map (fun q => snd (step_exchange (fst q) (snd q)))
                (combine (handles p) actions)) = Ok ts
    /\ handles p'
       = map (fun r => set_ended (fst (step_exchange (fst (fst r)) (snd (fst r))))
                                 (episode_over (snd r)))
             (combine (combine (handles p) actions) ts)
    /\ b = batch_transitions ts.
Proof.
  unfold par_step. destruct (check_state (par_state p)); [|discriminate].
  destruct (negb (length actions =? length (handles p))%nat); [discriminate|].
  cbn [handles]. rewrite exchange_any_sched. unfold collect, fire, conclude.
  set (qs := combine (handles p) actions).
  assert (Hf : combine (handles p)
                 (map (fun q => step_command (fst q) (snd q)) qs)
               = map (fun q => (fst q, step_command (fst q) (snd q))) qs).
  { unfold qs. generalize actions. clear.
    induction (handles p) as [|h hs IH]; intros [|a acts]; simpl; try reflexivity.
    now rewrite IH. }
  rewrite Hf, !map_map. cbn [fst snd].
  change (fun x : Handle * Action =>
            snd (await (send (step_command (fst x) (snd x)) (fst x))))
    with (fun q : Handle * Action => snd (step_exchange (fst q) (snd q))).
  destruct (gather payload_transition 0
              (map (fun q => snd (step_exchange (fst q) (snd q))) qs))
    as [ts|x] eqn:Hg; [|discriminate].
  intros [= <- <-]. exists ts. repeat split. cbn [handles].
  clear. generalize ts. induction qs as [|q qs IH]; intros [|t ts'];
    simpl; try reflexivity.
  now rewrite IH.
Qed.

Lemma par_step_ok_length (sched : list nat) (actions : list Action)
      (p p' : ParExec) (o : Output) :
  par_step sched actions p = (p', Ok o) -> length actions = length (handles p).
Proof.
  unfold par_step. destruct (check_state (par_state p)); [|discriminate].
  destruct (length actions =? length (handles p))%nat eqn:H; [|discriminate].
  intros _. now apply Nat.eqb_eq.
Qed.

(** One slot of a successful parallel step. *)
Lemma par_step_ok_nth (sched : list nat) (actions : list Action)
      (p p' : ParExec) (ts : list Transition) :
  gather payload_transition 0
         (map (fun q => snd (step_exchange (fst q) (snd q)))
              (combine (handles p) actions)) = Ok ts ->
  handles p'
  = map (fun r => set_ended (fst (step_exchange (fst (fst r)) (snd (fst r))))
                            (episode_over (snd r)))
        (combine (combine (handles p) actions) ts) ->
  forall (k : nat) (h : Handle) (a : Action),
    nth_error (handles p) k = Some h -> nth_error actions k = Some a ->
    exists pl t,
      snd (step_exchange h a) = Success pl
      /\ payload_transition pl = Ok t
      /\ nth_error ts k = Some t
      /\ nth_error (handles p') k
         = Some (set_ended (fst (step_exchange h a)) (episode_over t)).
Proof.
  intros Hg Hh k h a Hk Ha.
  assert (Hq : nth_error (combine (handles p) actions) k = Some (h, a))
    by (now rewrite nth_error_combine, Hk, Ha).
  destruct (gather_ok_nth _ _ _ _ Hg k (snd (step_exchange h a)))
    as [pl [t [Hr [Hc Ht]]]].
  { rewrite nth_error_map, Hq. reflexivity. }
  exists pl, t. repeat split; try assumption.
  rewrite Hh, nth_error_map, nth_error_combine, Hq, Ht. reflexivity.
Qed.

Lemma ve_call_seq_inv (s : list nat) (c : Call) (e : SeqExec)
      (v' : VectorEnv) (r : result Output) :
  ve_call s c (Sequential e) = (v', r) ->
  exists e', v' = Sequential e' /\ seq_call c e = (e', r).
Proof.
  simpl. destruct (seq_call c e) as [e' r']. intros [= <- <-]. now exists e'.
Qed.

Lemma ve_call_par_inv (s : list nat) (c : Call) (p : ParExec)
      (v' : VectorEnv) (r : result Output) :
  ve_call s c (Parallel p) = (v', r) ->
  exists p', v' = Parallel p' /\ par_call s c p = (p', r).
Proof.
  simpl. destruct (par_call s c p) as [p' r']. intros [= <- <-]. now exists p'.
Qed.

Lemma auto_reset_seq (e e1 e2 : SeqExec) (a1 a2 : list Action)
      (b1 b2 : Batch) (k : nat) :
  seq_step a1 e = (e1, Ok (OutStep b1)) ->
  nth_error (b_terminated b1) k = Some true
  \/ nth_error (b_truncated b1) k = Some true ->
  seq_step a2 e1 = (e2, Ok (OutStep b2)) ->
  exists i seed i' oi ts2,
    slot_view (Sequential e1) k = Some (i, seed)
    /\ env_reset i seed None = (i', Ok oi)
    /\ b2 = batch_transitions ts2
    /\ nth_error ts2 k = Some (reset_as_transition oi)
    /\ slot_view (Sequential e2) k = Some (i', None).
Proof.
  intros H1 Hflag H2.
  destruct (seq_step_ok_inv _ _ _ _ H1) as [ts1 [He1 ->]].
  destruct (episode_over_flag _ _ Hflag) as [t1 [Ht1 Hover]].
  destruct (seq_each_ok_inv _ _ _ _ _ He1 k t1 Ht1)
    as [s [x [s1 [_ [_ [Hop Hs1]]]]]].
  pose proof (slot_step_ended _ _ _ _ Hop) as Hended. rewrite Hover in Hended.
  pose proof (seq_step_ok_length _ _ _ _ H2) as Hlen.
  destruct (seq_step_ok_inv _ _ _ _ H2) as [ts2 [He2 ->]].
  destruct (nth_error a2 k) as [x2|] eqn:Hx2.
  2:{ apply nth_error_None in Hx2.
      assert (Hlt : nth_error (seq_slots e1) k <> None) by (rewrite Hs1; discriminate).
      apply nth_error_Some in Hlt. lia. }
  destruct (seq_each_ok_nth _ _ _ _ _ He2 k s1 x2 Hs1 Hx2)
    as [s2 [t2 [Hop2 [Hs2 Ht2]]]].
  unfold slot_step, slot_reset in Hop2. rewrite Hended in Hop2.
  destruct (env_reset (inst s1) (pending s1) None) as [i' [oi|err]] eqn:Hr;
    [|discriminate].
  injection Hop2 as <- <-.
  exists (inst s1), (pending s1), i', oi, ts2. simpl.
  rewrite Hs1, Hs2. repeat split; assumption.
Qed.

Lemma auto_reset_par (sc1 sc2 : list nat) (p p1 p2 : ParExec)
      (a1 a2 : list Action) (b1 b2 : Batch) (k : nat) :
  par_step sc1 a1 p = (p1, Ok (OutStep b1)) ->
  nth_error (b_terminated b1) k = Some true
  \/ nth_error (b_truncated b1) k = Some true ->
  par_step sc2 a2 p1 = (p2, Ok (OutStep b2)) ->
  exists i seed i' oi ts2,
    slot_view (Parallel p1) k = Some (i, seed)
    /\ env_reset i seed None = (i', Ok oi)
    /\ b2 = batch_transitions ts2
    /\ nth_error ts2 k = Some (reset_as_transition oi)
    /\ slot_view (Parallel p2) k = Some (i', None).
Proof.
  intros H1 Hflag H2.
  pose proof (par_step_ok_length _ _ _ _ _ H1) as Hlen1.
  destruct (par_step_ok_inv _ _ _ _ _ H1) as [ts1 [Hg1 [Hh1 ->]]].
  destruct (episode_over_flag _ _ Hflag) as [t1 [Ht1 Hover]].
  pose proof (gather_ok_length _ _ _ _ Hg1) as Hl.
  rewrite length_map, length_combine in Hl.
  assert (Hk : (k < length ts1)%nat)
    by (apply nth_error_Some; rewrite Ht1; discriminate).
  destruct (nth_error (handles p) k) as [h|] eqn:Hh.
  2:{ apply nth_error_None in Hh. lia. }
  destruct (nth_error a1 k) as [x1|] eqn:Hx1.
  2:{ apply nth_error_None in Hx1. lia. }
  destruct (par_step_ok_nth sc1 _ _ _ _ Hg1 Hh1 k h x1 Hh Hx1)
    as [pl1 [t1' [_ [_ [Ht1' Hp1]]]]].
  rewrite Ht1 in Ht1'. injection Ht1' as <-. rewrite Hover in Hp1.
  set (h1 := set_ended (fst (step_exchange h x1)) true) in *.
  pose proof (par_step_ok_length _ _ _ _ _ H2) as Hlen2.
  destruct (par_step_ok_inv _ _ _ _ _ H2) as [ts2 [Hg2 [Hh2 ->]]].
  destruct (nth_error a2 k) as [x2|] eqn:Hx2.
  2:{ apply nth_error_None in Hx2.
      assert (Hlt : nth_error (handles p1) k <> None) by (rewrite Hp1; discriminate).
      apply nth_error_Some in Hlt. lia. }
  destruct (par_step_ok_nth sc2 _ _ _ _ Hg2 Hh2 k h1 x2 Hp1 Hx2)
    as [pl2 [t2 [Hr2 [Hc2 [Ht2 Hp2]]]]].
  unfold step_exchange, step_command in Hr2, Hp2.
  change (h_ended h1) with true in Hr2, Hp2.
  unfold await, run_worker, send in Hr2, Hp2. cbn [cmd_out worker] in Hr2, Hp2.
  destruct (worker h1) as [i stored|err|] eqn:Hw; cbn [worker_loop] in Hr2, Hp2.
  - destruct (env_reset i stored None) as [i' [oi|err]] eqn:Hr;
      cbn in Hr2, Hp2; [|discriminate].
    injection Hr2 as <-. cbn in Hc2. injection Hc2 as <-.
    exists i, stored, i', oi, ts2. cbn [slot_view].
    rewrite Hp1, Hp2. destruct h1 as [w1 c1 r1 n1]. cbn in Hw. subst w1.
    repeat split; assumption.
  - cbn in Hr2. discriminate.
  - cbn in Hr2. discriminate.
Qed.

(** C6: when the previous step reported [terminated] or [truncated] for
    slot [k], the next step reports for that slot the observation that
    resetting the slot's instance with its pending seed produces, reward
    0 and both flags false; the instance is left as that reset left it,
    so the action is not evaluated as a transition. *)
Theorem auto_reset_after_episode_end
        (v v1 v2 : VectorEnv) (sc1 sc2 : list nat)
        (a1 a2 : list Action) (b1 b2 : Batch) (k : nat) :
  ve_call sc1 (CallStep a1) v = (v1, Ok (OutStep b1)) ->
  nth_error (b_terminated b1) k = Some true
  \/ nth_error (b_truncated b1) k = Some true ->
  ve_call sc2 (CallStep a2) v1 = (v2, Ok (OutStep b2)) ->
  exists (i : Env) (seed : option Z) (i' : Env) (o : Obs) (info : Info),
    slot_view v1 k = Some (i, seed)
    /\ env_reset i seed None = (i', Ok (o, info))
    /\ nth_error (b_obs b2) k = Some o
    /\ nth_error (b_rewards b2) k = Some reward_zero
    /\ nth_error (b_terminated b2) k = Some false
    /\ nth_error (b_truncated b2) k = Some false
    /\ slot_view v2 k = Some (i', None).
Proof.
  intros H1 Hflag H2.
  assert (Hcore : exists i seed i' oi ts2,
             slot_view v1 k = Some (i, seed)
             /\ env_reset i seed None = (i', Ok oi)
             /\ b2 = batch_transitions ts2
             /\ nth_error ts2 k = Some (reset_as_transition oi)
             /\ slot_view v2 k = Some (i', None)).
  { destruct v as [e|p].
    - destruct (ve_call_seq_inv _ _ _ _ _ H1) as [e1 [-> H1']].
      destruct (ve_call_seq_inv _ _ _ _ _ H2) as [e2 [-> H2']].
      eapply auto_reset_seq; eauto.
    - destruct (ve_call_par_inv _ _ _ _ _ H1) as [p1 [-> H1']].
      destruct (ve_call_par_inv _ _ _ _ _ H2) as [p2 [-> H2']].
      eapply auto_reset_par; eauto. }
  destruct Hcore as [i [seed [i' [[o info] [ts2 [Hv1 [Hr [-> [Ht Hv2]]]]]]]]].
  exists i, seed, i', o, info. cbn [batch_transitions b_obs b_rewards
    b_terminated b_truncated].
  rewrite !nth_error_map, Ht. repeat split; assumption.
Qed.

(** ** The parallel executor simulates the sequential one *)

Lemma sim_each {X R : Type} (op : Slot -> X -> Slot * result R)
      (cmd : Slot -> X -> Command) (conv : Payload -> result R)
      (ended_of : Slot -> R -> bool) :
  slot_agrees op cmd conv ended_of ->
  forall (slots : list Slot) (xs : list X) (j : nat),
    let qs := combine slots xs in
    let rs := map (fun q => snd (await (send (cmd (fst q) (snd q))
                                             (handle_of (fst q))))) qs in
    match seq_each op slots xs with
    | (slots', Ok vs) =>
        length xs = length slots ->
        gather conv j rs = Ok vs
        /\ map (fun r => set_ended
                           (fst (await (send (cmd (fst (fst r)) (snd (fst r)))
                                             (handle_of (fst (fst r))))))
                           (ended_of (fst (fst r)) (snd r)))
               (combine qs vs)
           = map handle_of slots'
    | (_, Raise e) => exists k, gather conv j rs = Raise (WorkerError k e)
    end.
Proof.
  intros Hslot slots. induction slots as [|s slots IH]; intros xs j; cbn zeta.
  - simpl. intros Hl. split; reflexivity.
  - destruct xs as [|x xs].
    + simpl. intros Hl. discriminate.
    + cbn [seq_each combine map gather fst snd].
      pose proof (Hslot s x) as Hs.
      destruct (op s x) as [s1 [v|e]].
      * destruct Hs as [Hu Hh]. rewrite Hu.
        specialize (IH xs (S j)). cbn zeta in IH.
        destruct (seq_each op slots xs) as [rest [vs|e]].
        -- intros Hl. injection Hl as Hl. destruct (IH Hl) as [Hg Hm].
           rewrite Hg. split; [reflexivity|].
           cbn [combine map fst snd]. now rewrite Hh, Hm.
        -- destruct IH as [k Hg]. exists k. now rewrite Hg.
      * rewrite Hs. now exists j.
Qed.

Lemma step_agrees :
  slot_agrees slot_step (fun s a => step_command (handle_of s) a)
              payload_transition (fun _ t => episode_over t).
Proof.
  intros s a. unfold slot_step, slot_reset, step_command, await, run_worker, send.
  cbn [handle_of h_ended cmd_out worker worker_loop].
  destruct (ended s) eqn:He; cbn [worker_loop].
  - destruct (env_reset (inst s) (pending s) None) as [i [oi|e]]; cbn.
    + split; reflexivity.
    + reflexivity.
  - destruct (env_step (inst s) a) as [i [t|e]]; cbn.
    + split; reflexivity.
    + reflexivity.
Qed.

Lemma reset_agrees (options : option Options) :
  slot_agrees (slot_reset options) (fun _ seed => RESET seed options)
              payload_reset (fun _ _ => false).
Proof.
  intros s seed. unfold slot_reset, await, run_worker, send.
  cbn [handle_of h_ended cmd_out worker worker_loop].
  destruct (env_reset (inst s)
              match seed with Some _ => seed | None => pending s end options)
    as [i [oi|e]]; cbn.
  - split; reflexivity.
  - reflexivity.
Qed.

Lemma combine_map_l {A B A' : Type} (f : A -> A') (l : list A) (l' : list B) :
  combine (map f l) l' = map (fun q => (f (fst q), snd q)) (combine l l').
Proof.
  revert l'. induction l as [|a l IH]; intros [|b l']; simpl; try reflexivity.
  now rewrite IH.
Qed.

Lemma combine_map_r {A B B' : Type} (f : B -> B') (l : list A) (l' : list B) :
  combine l (map f l') = map (fun q => (fst q, f (snd q))) (combine l l').
Proof.
  revert l'. induction l as [|a l IH]; intros [|b l']; simpl; try reflexivity.
  now rewrite IH.
Qed.

Lemma combine_self_map {A B : Type} (f : A -> B) (l : list A) :
  combine l (map f l) = map (fun a => (a, f a)) l.
Proof. induction l as [|a l IH]; simpl; [reflexivity | now rewrite IH]. Qed.

Lemma spread_seed_length (n : nat) (seed : SeedArg) (seeds : list (option Z)) :
  spread_seed n seed = Ok seeds -> length seeds = n.
Proof.
  destruct seed as [|z|l]; simpl.
  - intros [= <-]. apply repeat_length.
  - intros [= <-]. apply repeat_length.
  - destruct (length l =? n)%nat eqn:H; [|discriminate].
    intros [= <-]. rewrite length_map. now apply Nat.eqb_eq.
Qed.

Lemma combine_map_both {A A' B G : Type} (f : A -> A') (g : A * B -> G)
      (l : list A) (l' : list B) :
  combine (map f l) (map g (combine l l'))
  = map (fun q => (f (fst q), g q)) (combine l l').
Proof.
  revert l'. induction l as [|a l IH]; intros [|b l']; simpl; try reflexivity.
  now rewrite IH.
Qed.

(** The parallel step on handles mirroring sequential slots, slot by slot. *)
Lemma par_step_mirror (sched : list nat) (actions : list Action)
      (st : ExecutorState) (slots : list Slot) :
  check_state st = Ok tt ->
  length actions = length slots ->
  let qs := combine slots actions in
  let cmd := fun (s : Slot) (a : Action) => step_command (handle_of s) a in
  par_step sched actions {| par_state := st; handles := map handle_of slots |}
  = conclude
      (map (fun q => fst (await (send (cmd (fst q) (snd q)) (handle_of (fst q))))) qs)
      (gather payload_transition 0
         (map (fun q => snd (await (send (cmd (fst q) (snd q)) (handle_of (fst q))))) qs))
      episode_over (fun ts => OutStep (batch_transitions ts)).
Proof.
  intros Hst Hlen. cbn zeta. unfold par_step. cbn [par_state handles].
  rewrite Hst, length_map, Hlen, Nat.eqb_refl. cbn [negb].
  rewrite exchange_any_sched. unfold collect, fire.
  rewrite (combine_map_l handle_of slots actions), (map_map _ _ (combine slots actions)).
  cbn [fst snd].
  rewrite (combine_map_both handle_of
             (fun q => step_command (handle_of (fst q)) (snd q))).
  rewrite !map_map. reflexivity.
Qed.

Lemma par_reset_mirror (sched : list nat) (options : option Options)
      (st : ExecutorState) (slots : list Slot) (seed : SeedArg)
      (seeds : list (option Z)) :
  check_state st = Ok tt ->
  spread_seed (length slots) seed = Ok seeds ->
  let qs := combine slots seeds in
  let cmd := fun (_ : Slot) (s : option Z) => RESET s options in
  par_reset sched seed options {| par_state := st; handles := map handle_of slots |}
  = conclude
      (map (fun q => fst (await (send (cmd (fst q) (snd q)) (handle_of (fst q))))) qs)
      (gather payload_reset 0
         (map (fun q => snd (await (send (cmd (fst q) (snd q)) (handle_of (fst q))))) qs))
      (fun _ => false)
      (fun l => OutReset (fst (batch_resets l)) (snd (batch_resets l))).
Proof.
  intros Hst Hseed. cbn zeta. unfold par_reset. cbn [par_state handles].
  rewrite Hst, length_map, Hseed.
  rewrite exchange_any_sched. unfold collect, fire.
  rewrite combine_map_l, combine_map_r, !map_map. reflexivity.
Qed.

Lemma conclude_mirror {X R : Type} (op : Slot -> X -> Slot * result R)
      (cmd : Slot -> X -> Command) (conv : Payload -> result R)
      (ended_of : R -> bool) (out : list R -> Output)
      (slots : list Slot) (xs : list X) :
  slot_agrees op cmd conv (fun _ => ended_of) ->
  length xs = length slots ->
  let qs := combine slots xs in
  match seq_each op slots xs,
        conclude
          (map (fun q => fst (await (send (cmd (fst q) (snd q)) (handle_of (fst q))))) qs)
          (gather conv 0
             (map (fun q => snd (await (send (cmd (fst q) (snd q)) (handle_of (fst q))))) qs))
          ended_of out
  with
  | (slots', Ok vs), (p', r) =>
      r = Ok (out vs) /\ par_state p' = DEFAULT
      /\ handles p' = map handle_of slots'
  | (_, Raise e), (p', r) =>
      par_state p' = CLOSED /\ exists k, r = Raise (WorkerError k e)
  end.
Proof.
  intros Hslot Hlen. cbn zeta.
  pose proof (sim_each op cmd conv (fun _ => ended_of) Hslot slots xs 0) as H.
  cbn zeta in H.
  destruct (seq_each op slots xs) as [slots' [vs|e]].
  - destruct (H Hlen) as [Hg Hm]. rewrite Hg. unfold conclude.
    repeat split. cbn [handles]. rewrite <- Hm.
    rewrite combine_map_l, map_map. reflexivity.
  - destruct H as [k Hg]. rewrite Hg. unfold conclude. split; [reflexivity|].
    now exists k.
Qed.

Lemma seed_mirror (slots : list Slot) (seeds : list (option Z)) (j : nat) :
  let fired := fire (map SEED seeds) (map handle_of slots) in
  (exists acks, gather payload_ack j (map (fun h => snd (await h)) fired) = Ok acks)
  /\ map (fun h => fst (await h)) fired
     = map handle_of (map (fun q => set_pending (fst q) (snd q))
                          (combine slots seeds)).
Proof.
  cbn zeta. unfold fire. revert seeds j.
  induction slots as [|s slots IH]; intros [|seed seeds] j;
    cbn [map combine fst snd gather];
    try (split; [now exists [] | reflexivity]).
  destruct (IH seeds (S j)) as [[acks Hg] Hm]. split.
  - change (snd (await (send (SEED seed) (handle_of s)))) with (Success PAck).
    cbn [unwrap payload_ack]. rewrite Hg. now exists (tt :: acks).
  - rewrite Hm. reflexivity.
Qed.

(** One batched call: the two executors return the same output or both
    raise, and they stay in step as long as the call returns. *)
Lemma sim_call (p : ParExec) (e : SeqExec) (sched : list nat) (c : Call) :
  in_step p e ->
  match seq_call c e, par_call sched c p with
  | (e', Ok o), (p', Ok o') => o = o' /\ in_step p' e'
  | (_, Raise _), (_, Raise _) => True
  | _, _ => False
  end.
Proof.
  intros [[Hp [He Hh]]|[Hp He]]; destruct p as [pst hs], e as [est slots];
    cbn [par_state seq_state handles seq_slots] in *; subst.
  - destruct c as [seed options|actions|seed|]; cbn [seq_call par_call].
    + (* reset *)
      unfold seq_reset. cbn [seq_state seq_slots check_state is_closed is_default].
      destruct (spread_seed (length slots) seed) as [seeds|x] eqn:Hseed.
      * rewrite (par_reset_mirror sched options DEFAULT slots seed seeds eq_refl Hseed).
        pose proof (conclude_mirror (slot_reset options)
                      (fun _ s => RESET s options) payload_reset (fun _ => false)
                      (fun l => OutReset (fst (batch_resets l)) (snd (batch_resets l)))
                      slots seeds (reset_agrees options)
                      (spread_seed_length _ _ _ Hseed)) as H.
        cbn zeta in H.
        destruct (seq_each (slot_reset options) slots seeds) as [slots' [vs|x]];
          destruct (conclude _ _ _ _) as [p' r].
        -- destruct H as [-> [Hst Hhs]]. split; [reflexivity|].
           left. repeat split; assumption.
        -- destruct H as [_ [k ->]]. exact I.
      * unfold par_reset. cbn [par_state handles check_state is_closed is_default].
        rewrite length_map, Hseed. exact I.
    + (* step *)
      unfold seq_step. cbn [seq_state seq_slots check_state is_closed is_default].
      destruct (length actions =? length slots)%nat eqn:Hlen; cbn [negb].
      * apply Nat.eqb_eq in Hlen.
        rewrite (par_step_mirror sched actions DEFAULT slots eq_refl Hlen).
        pose proof (conclude_mirror slot_step
                      (fun s a => step_command (handle_of s) a)
                      payload_transition episode_over
                      (fun ts => OutStep (batch_transitions ts))
                      slots actions step_agrees Hlen) as H.
        cbn zeta in H.
        destruct (seq_each slot_step slots actions) as [slots' [vs|x]];
          destruct (conclude _ _ _ _) as [p' r].
        -- destruct H as [-> [Hst Hhs]]. split; [reflexivity|].
           left. repeat split; assumption.
        -- destruct H as [_ [k ->]]. exact I.
      * unfold par_step. cbn [par_state handles check_state is_closed is_default].
        rewrite length_map, Hlen. exact I.
    + (* seed *)
      unfold seq_seed, par_seed.
      cbn [seq_state seq_slots par_state handles check_state is_closed is_default].
      rewrite length_map.
      destruct (spread_seed (length slots) seed) as [seeds|x] eqn:Hseed; [|exact I].
      rewrite exchange_any_sched. unfold collect.
      destruct (seed_mirror slots seeds 0) as [[acks Hg] Hm]. cbn zeta in Hg, Hm.
      rewrite Hg, Hm. split; [reflexivity|]. left. repeat split.
    + (* close *)
      unfold seq_close, par_close. cbn. split; [reflexivity|]. right. split; reflexivity.
  - destruct c as [seed options|actions|seed|]; cbn [seq_call par_call];
      unfold seq_reset, par_reset, seq_step, par_step, seq_seed, par_seed,
        seq_close, par_close; cbn; try exact I.
    split; [reflexivity|]. right. split; reflexivity.
Qed.

Lemma sim_run (calls : list (list nat * Call)) (p : ParExec) (e : SeqExec) :
  in_step p e ->
  (forallb is_ok (run calls (Sequential e)) = true ->
   run calls (Parallel p) = run calls (Sequential e))
  /\ (forallb is_ok (run calls (Parallel p)) = true ->
      run calls (Sequential e) = run calls (Parallel p)).
Proof.
  revert p e. induction calls as [|[sched c] calls IH]; intros p e Hin.
  - split; reflexivity.
  - cbn [run ve_call].
    pose proof (sim_call p e sched c Hin) as H.
    destruct (seq_call c e) as [e' [o|x]], (par_call sched c p) as [p' [o'|x']];
      try contradiction.
    + destruct H as [<- Hin']. destruct (IH p' e' Hin') as [IH1 IH2].
      split; intros Hok; cbn [forallb is_ok andb] in Hok; f_equal; auto.
    + split; intros Hok; cbn in Hok; discriminate.
Qed.

End ExecutorFacts.

(** * [make] with the two executors *)

Section MakeExecutors.

Context {C : Contract}.
Variables (Id Kwargs : Type).
Variable registry : Id -> Kwargs -> result Env.

Local Abbreviation make_ve := (make registry async_vector_env sync_vector_env).

Lemma build_instances_repeat (f : unit -> result Env) (k : nat) :
  build_instances (repeat f k)
  = match k with
    | O => Ok []
    | S _ => bind (f tt) (fun i => Ok (repeat i k))
    end.
Proof.
  induction k as [|k IH]; [reflexivity|].
  cbn [repeat build_instances]. rewrite IH.
  destruct (f tt) as [i|x]; [|reflexivity].
  destruct k; reflexivity.
Qed.

Lemma constructors_in_step (fns : list (unit -> result Env))
      (e : SeqExec) (p : ParExec) :
  SyncVectorEnv fns = Ok e -> AsyncVectorEnv fns = Ok p -> in_step p e.
Proof.
  unfold SyncVectorEnv, AsyncVectorEnv. intros He [= <-].
  destruct (build_instances fns) as [es|x] eqn:Hb; [|discriminate].
  injection He as <-. left. repeat split. cbn [handles seq_slots].
  revert es Hb. induction fns as [|f fns IH]; intros es Hb; cbn in Hb.
  - now injection Hb as <-.
  - unfold bind in Hb. destruct (f tt) as [i|x] eqn:Hf; [|discriminate].
    destruct (build_instances fns) as [es'|x]; [|discriminate].
    injection Hb as <-. cbn [map]. rewrite (IH es' eq_refl).
    unfold spawn. now rewrite Hf.
Qed.

(** C1: a sequential and a parallel executor built by [make] from the same
    id, number of slots, wrappers and keyword arguments return the same
    outputs (batched observations, rewards, flags and infos) on every
    session whose calls all return, whatever the order in which the
    workers run; the instances are functions of their state and inputs. *)
Theorem sync_async_same_batches
        (id : Id) (n : Z) (w : pyobj Env) (kw : Kwargs)
        (vs vp : VectorEnv) (calls : list (list nat * Call)) :
  make_ve id n false w kw = Ok vs ->
  make_ve id n true w kw = Ok vp ->
  (forallb is_ok (run calls vs) = true -> run calls vp = run calls vs)
  /\ (forallb is_ok (run calls vp) = true -> run calls vs = run calls vp).
Proof.
  unfold make, sync_vector_env, async_vector_env. intros Hs Hp.
  destruct (SyncVectorEnv (env_fns registry id n w kw)) as [e|x] eqn:He;
    [|discriminate].
  destruct (AsyncVectorEnv (env_fns registry id n w kw)) as [p|x] eqn:Hpp;
    [|discriminate].
  cbn in Hs, Hp. injection Hs as <-. injection Hp as <-.
  apply sim_run. eapply constructors_in_step; eauto.
Qed.

Lemma make_sequential_value (id : Id) (n : Z) (w : pyobj Env) (kw : Kwargs) :
  make_ve id n false w kw
  = if n <=? 0
    then Ok (Sequential {| seq_state := DEFAULT; seq_slots := [] |})
    else bind (_make_env registry id kw w tt)
              (fun i => Ok (Sequential
                              {| seq_state := DEFAULT;
                                 seq_slots := repeat (fresh_slot i) (Z.to_nat n) |})).
Proof.
  unfold make, sync_vector_env, SyncVectorEnv.
  rewrite env_fns_repeat, build_instances_repeat.
  destruct (n <=? 0) eqn:Hn.
  - apply Z.leb_le in Hn. replace (Z.to_nat n) with 0%nat by lia. reflexivity.
  - apply Z.leb_gt in Hn. destruct (Z.to_nat n) as [|k] eqn:Hk; [lia|].
    destruct (_make_env registry id kw w tt) as [i|x]; [|reflexivity].
    cbn [bind]. now rewrite map_repeat.
Qed.

(** With at least one slot, a factory that raises makes the construction
    of the sequential executor, and so the call of [make], raise. *)
Lemma make_sequential_raises (id : Id) (n : Z) (w : pyobj Env) (kw : Kwargs)
      (e : exn) :
  0 < n ->
  _make_env registry id kw w tt = Raise e ->
  make_ve id n false w kw = Raise e.
Proof.
  intros Hn Hf. rewrite make_sequential_value, Hf.
  destruct (n <=? 0) eqn:Hle; [apply Z.leb_le in Hle; lia | reflexivity].
Qed.

(** C5, as the code has it: [make] itself calls neither the registry nor
    a wrapper: every call on its record is one the executor's constructor
    made, and handing the factories to a constructor that invokes none
    leaves the record empty.  The registry is called when a factory is
    invoked, first thing, so a construction failure surfaces at that
    invocation.  That can be inside the call of [make]: the sequential
    executor invokes the factories while it is constructed, so with at
    least one slot a failing factory makes [make] raise. *)
Theorem construction_failure_surfacing
        (id : Id) (n : Z) (w : pyobj Env) (kw : Kwargs) :
  (forall (VE : Type)
          (AsyncVE SyncVE : list (Traced.factory Env Id Kwargs)
                            -> Traced.traced Env Id Kwargs VE)
          (b : bool),
      Traced.make registry AsyncVE SyncVE id n b w kw
      = (if b then AsyncVE else SyncVE) (Traced.env_fns registry id n w kw))
  /\ (forall b : bool,
         Traced.make registry (fun fns => Traced.ret fns)
                     (fun fns => Traced.ret fns) id n b w kw
         = ([], Ok (Traced.env_fns registry id n w kw)))
  /\ Forall (fun f => exists later,
                 fst (f tt) = Traced.Construct id kw :: later
                 /\ Traced.constructions later = 0%nat
                 /\ snd (f tt) = _make_env registry id kw w tt)
            (Traced.env_fns registry id n w kw)
  /\ (forall e : exn,
         0 < n ->
         _make_env registry id kw w tt = Raise e ->
         make_ve id n false w kw = Raise e).
Proof.
  split; [intros VE AsyncVE SyncVE b; destruct b; reflexivity|].
  split; [intros b; destruct b; reflexivity|].
  split.
  - rewrite traced_env_fns_repeat. apply Forall_forall. intros f Hin.
    apply repeat_spec in Hin. subst f. apply traced_factory_invocation.
  - intros e. apply make_sequential_raises.
Qed.

(** C8, as the code has it: when [wrappers] falls through to the [else]
    branch (not [None], not callable, not an iterable of callables),
    [make] itself raises nothing, and every invocation of a factory
    calls the registry and then raises [NotImplementedError] without
    applying a wrapper.  The sequential executor invokes the factories
    while it is constructed, so with at least one slot the call of [make]
    raises it. *)
Theorem unusable_wrappers_raise
        (id : Id) (n : Z) (w : pyobj Env) (kw : Kwargs) :
  is_none w = false ->
  callable w = false ->
  iterable_of_callables w = false ->
  (forall b : bool,
      Traced.make registry (fun fns => Traced.ret fns)
                  (fun fns => Traced.ret fns) id n b w kw
      = ([], Ok (Traced.env_fns registry id n w kw)))
  /\ Forall (fun f => f tt
                      = ([Traced.Construct id kw],
                         bind (registry id kw) (fun _ => Raise NotImplementedError)))
            (Traced.env_fns registry id n w kw)
  /\ Forall (fun f => f tt = bind (registry id kw) (fun _ => Raise NotImplementedError))
            (env_fns registry id n w kw)
  /\ (forall base : Env,
         0 < n ->
         registry id kw = Ok base ->
         make_ve id n false w kw = Raise NotImplementedError).
Proof.
  intros Hnone Hcall Hiter.
  assert (Hf : _make_env registry id kw w tt
               = bind (registry id kw) (fun _ => Raise NotImplementedError)).
  { unfold _make_env. now rewrite Hnone, Hcall, Hiter. }
  split; [intros b; destruct b; reflexivity|].
  split.
  { rewrite traced_env_fns_repeat. apply Forall_forall. intros f Hin.
    apply repeat_spec in Hin. subst f.
    unfold Traced._make_env, Traced.call_registry.
    rewrite Hnone, Hcall, Hiter. destruct (registry id kw); reflexivity. }
  split.
  { rewrite env_fns_repeat. apply Forall_forall. intros f Hin.
    apply repeat_spec in Hin. now subst f. }
  intros base Hn Hbase. apply make_sequential_raises; [exact Hn|].
  now rewrite Hf, Hbase.
Qed.

End MakeExecutors.

(** * The counter environment behind both executors *)

Module CounterFacts.

Import Counter.
Local Open Scope string_scope.
Local Open Scope Z_scope.

(** The end-to-end scenario: after [reset] and two steps every counter
    shows 2 and reports [terminated]; the third step auto-resets. *)
Example end_to_end (asynchronous : bool) :
  run [([], CallReset SeedNone None); ([2; 0]%nat, CallStep [0; 0; 0]);
       ([1]%nat, CallStep [4; 5; 6]); ([], CallStep [7; 8; 9])]
      (trio asynchronous)
  = [Ok (OutReset [0; 0; 0] [tt; tt; tt]);
     Ok (OutStep (mkBatch [1; 1; 1] [1; 1; 1] [false; false; false]
                          [false; false; false] [tt; tt; tt]));
     Ok (OutStep (mkBatch [2; 2; 2] [1; 1; 1] [true; true; true]
                          [false; false; false] [tt; tt; tt]));
     Ok (OutStep (mkBatch [0; 0; 0] [0; 0; 0] [false; false; false]
                          [false; false; false] [tt; tt; tt]))].
Proof. destruct asynchronous; reflexivity. Qed.

(** Fault injection: an instance raising during a parallel step fails the
    whole call with a [WorkerError] naming the slot, and the executor is
    closed afterwards. *)
Example fault_injection :
  run [([], CallReset SeedNone None); ([], CallStep [0; -1; 0]);
       ([], CallStep [0; 0; 0])]
      (trio true)
  = [Ok (OutReset [0; 0; 0] [tt; tt; tt]);
     Raise (WorkerError 1 (ExternalError "invalid action"));
     Raise ClosedError].
Proof. reflexivity. Qed.

Lemma sync_async_same_batches_witness :
  vmake "Counter-v0" 3 false PyNone None = Ok (trio false)
  /\ vmake "Counter-v0" 3 true PyNone None = Ok (trio true)
  /\ forallb is_ok (run session (trio false)) = true
  /\ run session (trio true) = run session (trio false).
Proof.
  split; [reflexivity|]. split; [reflexivity|]. split; [reflexivity|].
  apply (proj1 (@sync_async_same_batches contract string (option Z) registry
                  "Counter-v0" 3 PyNone None (trio false) (trio true) session
                  eq_refl eq_refl)).
  reflexivity.
Defined.

Lemma make_supplies_n_factories_witness :
  0 <= 3
  /\ exists fns : list (Traced.factory env string (option Z)),
      Traced.make registry (fun fns => Traced.ret (length fns))
                  (fun fns => Traced.ret (length fns))
                  "Counter-v0" 3 true (py_fun longer) None
      = Traced.ret (length fns)
      /\ Z.of_nat (length fns) = 3
      /\ Forall (fun f =>
                   f tt
                   = ([Traced.Construct "Counter-v0" None;
                       Traced.Wrap (py_fun longer)
                                   {| count := 0; limit := 2; closed := false |}],
                      Ok {| count := 0; limit := 3; closed := false |})) fns.
Proof.
  split; [lia|].
  destruct (make_supplies_n_factories env string (option Z) registry nat
              (fun fns => Traced.ret (length fns))
              (fun fns => Traced.ret (length fns))
              "Counter-v0" 3 true (py_fun longer) None)
    as [fns [Hmake [Hlen [_ [_ [_ [_ Hinv]]]]]]]; [lia|].
  exists fns. split; [exact Hmake|]. split; [exact Hlen|].
  exact (proj2 (Hinv {| count := 0; limit := 2; closed := false |} eq_refl)
               longer None eq_refl).
Defined.

Lemma auto_reset_after_episode_end_witness :
  ve_call [1]%nat (CallStep [0; 0; 0]) (mid_episode true)
  = (fst last_step, Ok (OutStep last_batch))
  /\ nth_error (b_terminated last_batch) 1 = Some true
  /\ ve_call [2; 0]%nat (CallStep [4; 5; 6]) (fst last_step)
     = (fst next_step, Ok (OutStep reset_batch))
  /\ exists (i : env) (seed : option Z) (i' : env) (o : Z) (info : unit),
      slot_view (fst last_step) 1 = Some (i, seed)
      /\ reset i seed None = (i', Ok (o, info))
      /\ nth_error (b_obs reset_batch) 1 = Some o
      /\ nth_error (b_rewards reset_batch) 1 = Some 0
      /\ nth_error (b_terminated reset_batch) 1 = Some false
      /\ nth_error (b_truncated reset_batch) 1 = Some false
      /\ slot_view (fst next_step) 1 = Some (i', None).
Proof.
  split; [reflexivity|]. split; [reflexivity|]. split; [reflexivity|].
  apply (@auto_reset_after_episode_end contract
           (mid_episode true) (fst last_step) (fst next_step)
           [1]%nat [2; 0]%nat [0; 0; 0] [4; 5; 6] last_batch reset_batch 1%nat).
  - reflexivity.
  - left. reflexivity.
  - reflexivity.
Defined.

Lemma unusable_wrappers_raise_witness :
  is_none an_int = false
  /\ callable an_int = false
  /\ iterable_of_callables an_int = false
  /\ 0 < 2
  /\ registry "Counter-v0" None = Ok {| count := 0; limit := 2; closed := false |}
  /\ Forall (fun f => f tt = ([Traced.Construct "Counter-v0" None],
                              Raise NotImplementedError))
            (Traced.env_fns registry "Counter-v0" 2 an_int None)
  /\ vmake "Counter-v0" 2 false an_int None = Raise NotImplementedError.
Proof.
  split; [reflexivity|]. split; [reflexivity|]. split; [reflexivity|].
  split; [lia|]. split; [reflexivity|].
  destruct (@unusable_wrappers_raise contract string (option Z) registry
              "Counter-v0" 2 an_int None eq_refl eq_refl eq_refl)
    as [_ [Hinv [_ Hseq]]].
  split; [exact Hinv|].
  apply (Hseq {| count := 0; limit := 2; closed := false |}); [lia | reflexivity].
Defined.

Lemma construction_failure_surfacing_witness :
  0 < 1
  /\ _make_env registry "NoSuchEnv-v0" None PyNone tt
     = Raise (ExternalError "unregistered id")
  /\ vmake "NoSuchEnv-v0" 1 false PyNone None
     = Raise (ExternalError "unregistered id").
Proof.
  split; [lia|]. split; [reflexivity|].
  destruct (@construction_failure_surfacing contract string (option Z) registry
              "NoSuchEnv-v0" 1 PyNone None) as [_ [_ [_ Hseq]]].
  apply Hseq; [lia | reflexivity].
Defined.

(** C5 as stated fails: with the sequential executor and one slot, the
    construction failure of an id the registry does not know is raised by
    the call of [make] itself, and so is the [NotImplementedError] of
    unusable wrappers. *)
Lemma make_can_raise_construction_failure :
  vmake "NoSuchEnv-v0" 1 false PyNone None
  = Raise (ExternalError "unregistered id")
  /\ vmake "Counter-v0" 1 false an_int None = Raise NotImplementedError.
Proof. split; reflexivity. Qed.

(** C8 as stated fails: an int is neither callable nor an iterable of
    callables, and with the sequential executor and one slot [make] does
    not return normally: the [NotImplementedError] is raised by the call
    of [make] itself. *)
Lemma unusable_wrappers_counterexample :
  is_none an_int = false
  /\ callable an_int = false
  /\ iterable_of_callables an_int = false
  /\ is_ok (vmake "Counter-v0" 1 false an_int None) = false
  /\ vmake "Counter-v0" 1 false an_int None = Raise NotImplementedError.
Proof. repeat split. Qed.

(** Witnesses for the factory facts. *)
Lemma wrapper_lists_concatenate_witness :
  forallb callable [py_fun longer] = true
  /\ forallb callable [py_fun longer; py_fun longer] = true
  /\ _make_env registry "Counter-v0" None
               (py_list ([py_fun longer] ++ [py_fun longer; py_fun longer])) tt
     = bind (_make_env registry "Counter-v0" None (py_list [py_fun longer]) tt)
            (for_wrappers [py_fun longer; py_fun longer]).
Proof.
  split; [reflexivity|]. split; [reflexivity|].
  apply (wrapper_lists_concatenate env string (option Z) registry
           "Counter-v0" None [py_fun longer] [py_fun longer; py_fun longer]);
    reflexivity.
Defined.

Lemma raising_wrapper_stops_chain_witness :
  forallb callable [py_fun longer] = true
  /\ callable (py_fun refusing) = true
  /\ forallb callable [py_fun longer] = true
  /\ _make_env registry "Counter-v0" None (py_list [py_fun longer]) tt
     = Ok {| count := 0; limit := 3; closed := false |}
  /\ py_call (py_fun refusing) {| count := 0; limit := 3; closed := false |}
     = Raise (ExternalError "wrapper refused")
  /\ _make_env registry "Counter-v0" None
               (py_list ([py_fun longer] ++ py_fun refusing :: [py_fun longer])) tt
     = Raise (ExternalError "wrapper refused").
Proof.
  split; [reflexivity|]. split; [reflexivity|]. split; [reflexivity|].
  split; [reflexivity|]. split; [reflexivity|].
  apply (raising_wrapper_stops_chain env string (option Z) registry
           "Counter-v0" None [py_fun longer] [py_fun longer] (py_fun refusing)
           {| count := 0; limit := 3; closed := false |}
           (ExternalError "wrapper refused")); reflexivity.
Defined.

Lemma non_callable_item_blocks_all_witness :
  callable (py_list [py_fun refusing; an_int]) = false
  /\ iterable (py_list [py_fun refusing; an_int]) = Some [py_fun refusing; an_int]
  /\ In an_int [py_fun refusing; an_int]
  /\ callable an_int = false
  /\ _make_env registry "Counter-v0" None (py_list [py_fun refusing; an_int]) tt
     = bind (registry "Counter-v0" None) (fun _ => Raise NotImplementedError).
Proof.
  split; [reflexivity|]. split; [reflexivity|].
  split; [right; left; reflexivity|]. split; [reflexivity|].
  apply (non_callable_item_blocks_all env string (option Z) registry
           "Counter-v0" None (py_list [py_fun refusing; an_int]) an_int
           [py_fun refusing; an_int]);
    [reflexivity | reflexivity | right; left; reflexivity | reflexivity].
Defined.

Lemma list_as_single_callable_witness :
  forallb callable [py_fun longer; py_fun refusing] = true
  /\ _make_env registry "Counter-v0" None
               (py_list [py_fun longer; py_fun refusing]) tt
     = _make_env registry "Counter-v0" None
                 (py_fun (for_wrappers [py_fun longer; py_fun refusing])) tt.
Proof.
  split; [reflexivity|].
  apply (list_as_single_callable env string (option Z) registry
           "Counter-v0" None [py_fun longer; py_fun refusing]).
  reflexivity.
Defined.

Lemma factory_raises_only_not_implemented_witness :
  registry "Counter-v0" None = Ok {| count := 0; limit := 2; closed := false |}
  /\ total_wrapper (py_list [py_fun longer; an_int])
  /\ Forall total_wrapper [py_fun longer; an_int]
  /\ ((exists e : env,
          _make_env registry "Counter-v0" None
                    (py_list [py_fun longer; an_int]) tt = Ok e)
      \/ _make_env registry "Counter-v0" None
                   (py_list [py_fun longer; an_int]) tt
         = Raise NotImplementedError).
Proof.
  assert (Hitems : Forall total_wrapper [py_fun longer; an_int]).
  { constructor; [intros e; reflexivity|]. constructor; [exact I|]. constructor. }
  split; [reflexivity|]. split; [exact I|]. split; [exact Hitems|].
  apply (factory_raises_only_not_implemented env string (option Z) registry
           "Counter-v0" None (py_list [py_fun longer; an_int])
           {| count := 0; limit := 2; closed := false |});
    [reflexivity | exact I | exact Hitems].
Defined.

End CounterFacts.
